(** * Falling sand simulator (src/main.py): model and verified properties

    The simulator keeps a square grid of cells (0 = empty, 1 = sand).  Each
    tick [update_grid] builds a fresh grid, paints the brush when the mouse
    button is held, and then projects every sand cell of the current grid to
    a destination: straight down, else one randomly chosen diagonal, else in
    place.  The development below embeds the methods of class [FallingSand]
    as executable functions in a small state-and-error monad and proves
    properties of them. *)

From Stdlib Require Import ZArith Lia QArith Qround Lqa Floats.
From stdpp Require Import base tactics option list numbers sets.

Open Scope Z_scope.

(** ** Python values and exceptions *)

Inductive PyError := IndexError | ZeroDivisionError.

Inductive Result (A : Type) :=
  | Ok (a : A)
  | Raise (e : PyError).
Arguments Ok {A} a.
Arguments Raise {A} e.

#[global] Instance Result_ret : MRet Result := λ A a, Ok a.
#[global] Instance Result_bind : MBind Result := λ A B f m,
  match m with Ok a => f a | Raise e => Raise e end.

(** Position denoted by a Python list subscript [i] on a list of length
    [len]: indices [0 .. len-1] are taken as they are, indices
    [-len .. -1] count from the end, anything else raises IndexError. *)
Definition py_index (len : nat) (i : Z) : Result nat :=
  if (0 <=? i) && (i <? Z.of_nat len) then Ok (Z.to_nat i)
  else if (- Z.of_nat len <=? i) && (i <? 0) then Ok (Z.to_nat (Z.of_nat len + i))
  else Raise IndexError.

(** [l[i]] *)
Definition getitem {A} (l : list A) (i : Z) : Result A :=
  n ← py_index (length l) i;
  match l !! n with Some x => Ok x | None => Raise IndexError end.

(** [l[i] = v] *)
Definition setitem {A} (l : list A) (i : Z) (v : A) : Result (list A) :=
  n ← py_index (length l) i;
  Ok (<[n:=v]> l).

(** [a // b] on Python integers: floor division, ZeroDivisionError on 0. *)
Definition floordiv (a b : Z) : Result Z :=
  if b =? 0 then Raise ZeroDivisionError else Ok (a `div` b).

(** [range(n)] *)
Definition range (n : Z) : list Z := seqZ 0 n.

(** ** The random module

    [choice] and [uniform] draw from Python's global generator.  The
    generator is an abstract state with two sampling operations; nothing is
    assumed about the values it produces. *)
Class Random (R : Type) := {
  (** index (false = 0, true = 1) picked by [choice] in a 2-tuple *)
  pick2 : R → bool * R;
  (** truth value of [round(uniform(0, 1), 2) < 0.75] *)
  uniform_below : R → bool * R
}.

(** A generator reading its outcomes from two infinite tapes. *)
Record Tape := {
  tape_pick : nat → bool;
  tape_uniform : nat → bool;
  tape_pos : nat
}.

Definition tape_next (t : Tape) : Tape :=
  {| tape_pick := tape_pick t; tape_uniform := tape_uniform t;
     tape_pos := S (tape_pos t) |}.

#[global] Instance Tape_random : Random Tape := {|
  pick2 t := (tape_pick t (tape_pos t), tape_next t);
  uniform_below t := (tape_uniform t (tape_pos t), tape_next t)
|}.

(** ** Grid and configuration *)

Abbreviation Grid := (list (list Z)).
Abbreviation Cell := (Z * Z)%type.

Abbreviation EMPTY := 0%Z (only parsing).
Abbreviation SAND := 1%Z (only parsing).

Definition WIDTH : Z := 800.
Definition HEIGHT : Z := 800.

(** Pointer state as reported by pygame.mouse. *)
Record Mouse := {
  get_pressed0 : bool;   (* pygame.mouse.get_pressed()[0] *)
  get_pos : Z * Z        (* pygame.mouse.get_pos() *)
}.

Definition no_paint : Mouse := {| get_pressed0 := false; get_pos := (0, 0) |}.

(** pygame's event-type constant; any non-zero integer is truthy. *)
Definition MOUSEBUTTONDOWN : Z := 1025.

Section Engine.
(** [self.SIZE] and [self.RADIUS] (50 and 5 in [__init__]). *)
Variable SIZE : Z.
Variable RADIUS : Z.
Context {R : Type} `{Random R}.

(** [min(self.WIDTH // self.SIZE, self.HEIGHT // self.SIZE)], computed once
    in [__init__] (which itself raises when [SIZE] is 0; [Z]'s division
    gives 0 there). *)
Definition CELL_SIZE : Z := Z.min (WIDTH `div` SIZE) (HEIGHT `div` SIZE).

(** State threaded through one call of [update_grid]: the local
    [next_grid], the generator, and three ghost logs that record what the
    call did (every subscripted position, every painted cell, and the
    source and destination of every particle).  The logs are only
    appended to; no decision reads them. *)
Record Tick := {
  next_grid : Grid;
  rng : R;
  accesses : list Cell;
  painted : list Cell;
  moves : list (Cell * Cell)
}.

Definition M (A : Type) : Type := Tick → Result (A * Tick).

#[global] Instance M_ret : MRet M := λ A a s, Ok (a, s).
#[global] Instance M_bind : MBind M := λ A B f m s,
  match m s with Ok (a, s') => f a s' | Raise e => Raise e end.

Definition lift {A} (r : Result A) : M A := λ s,
  match r with Ok a => Ok (a, s) | Raise e => Raise e end.

Definition get_next_grid : M Grid := λ s, Ok (next_grid s, s).

Definition set_next_grid (g : Grid) : M unit := λ s,
  Ok ((), {| next_grid := g; rng := rng s; accesses := accesses s;
             painted := painted s; moves := moves s |}).

Definition sample {A} (f : R → A * R) : M A := λ s,
  let '(a, r) := f (rng s) in
  Ok (a, {| next_grid := next_grid s; rng := r; accesses := accesses s;
            painted := painted s; moves := moves s |}).

Definition log_access (p : Cell) : M unit := λ s,
  Ok ((), {| next_grid := next_grid s; rng := rng s;
             accesses := accesses s ++ [p];
             painted := painted s; moves := moves s |}).

Definition log_paint (p : Cell) : M unit := λ s,
  Ok ((), {| next_grid := next_grid s; rng := rng s; accesses := accesses s;
             painted := painted s ++ [p]; moves := moves s |}).

Definition log_move (src dst : Cell) : M unit := λ s,
  Ok ((), {| next_grid := next_grid s; rng := rng s; accesses := accesses s;
             painted := painted s; moves := moves s ++ [(src, dst)] |}).

(** [for x in l: body(x)] *)
Fixpoint for_ {A} (l : list A) (body : A → M unit) : M unit :=
  match l with
  | [] => mret ()
  | x :: l' => body x ;; for_ l' body
  end.

(** [g[r][c]] *)
Definition load (g : Grid) (r c : Z) : M Z :=
  log_access (r, c) ;;
  lift (row ← getitem g r; getitem row c).

(** [next_grid[r][c] = v]: the row object is fetched and updated in
    place.  Rows are distinct objects ([generate_grid] appends a new list
    per row), so no other row changes. *)
Definition store_next (r c v : Z) : M unit :=
  log_access (r, c) ;;
  g ← get_next_grid;
  row ← lift (getitem g r);
  row' ← lift (setitem row c v);
  g' ← lift (setitem g r row');
  set_next_grid g'.

(** [choice((a, b))] *)
Definition choice {A} (opts : A * A) : M A :=
  b ← sample pick2;
  mret (if b : bool then opts.2 else opts.1).

Definition generate_grid : Grid :=
  foldl (λ grid _, grid ++ [replicate (Z.to_nat SIZE) 0]) [] (range SIZE).

Definition within_rows (row : Z) : bool := (0 <=? row) && (row <=? SIZE - 1).

Definition within_cols (cols : Z) : bool := (0 <=? cols) && (cols <=? SIZE - 1).

Definition handle_drag (mouse : Mouse) : M unit :=
  let '(mx, my) := get_pos mouse in
  mxr ← lift (floordiv mx CELL_SIZE);
  myc ← lift (floordiv my CELL_SIZE);
  let extent := RADIUS `div` 2 in
  for_ (range extent) (λ row,
    for_ (range extent) (λ column,
      b ← sample uniform_below;
      if b : bool then
        let r := mxr + row in
        let c := myc + column in
        if within_cols c && within_rows r then
          store_next c r 1 ;; log_paint (c, r)
        else mret ()
      else mret ())).

(** Body of the double loop of [update_grid] for one cell of [self.grid]. *)
Definition visit (grid : Grid) (row col : Z) : M unit :=
  cell ← load grid row col;
  let below := row + 1 in
  if negb (cell =? 1) then mret ()
  else
    free_below ← (if within_rows below
                  then v ← load grid below col; mret (v =? 0)
                  else mret false);
    if free_below : bool then
      store_next below col 1 ;; log_move (row, col) (below, col)
    else
      dir ← choice (-1, 1);
      let new_col := col + dir in
      free_side ← (if within_cols new_col && within_rows below
                   then v ← load grid below new_col; mret (v =? 0)
                   else mret false);
      if free_side : bool then
        store_next below new_col 1 ;; log_move (row, col) (below, new_col)
      else
        store_next row col cell ;; log_move (row, col) (row, col).

Definition update_grid (grid : Grid) (mouse : Mouse) : M unit :=
  set_next_grid generate_grid ;;
  (if negb (MOUSEBUTTONDOWN =? 0) then
     if get_pressed0 mouse then handle_drag mouse else mret ()
   else mret ()) ;;
  for_ (range SIZE) (λ row,
    for_ (range SIZE) (λ col, visit grid row col)).

(** One tick started with generator state [r]; on success the final
    [next_grid] is what [update_grid] assigns to [self.grid]. *)
Definition start (r : R) : Tick :=
  {| next_grid := []; rng := r; accesses := []; painted := []; moves := [] |}.

Definition tick (grid : Grid) (mouse : Mouse) (r : R) : Result Tick :=
  match update_grid grid mouse (start r) with
  | Ok (_, s) => Ok s
  | Raise e => Raise e
  end.

(** [n] consecutive ticks without paint input. *)
Fixpoint ticks (n : nat) (grid : Grid) (r : R) : Result (Grid * R) :=
  match n with
  | O => Ok (grid, r)
  | S n' => s ← tick grid no_paint r; ticks n' (next_grid s) (rng s)
  end.

End Engine.

Arguments Tick : clear implicits.
Arguments M : clear implicits.


(** ** Vocabulary used to state the properties *)

Section Vocabulary.
Variable SIZE : Z.
Context {R : Type} `{Random R}.

(** An index the grid really has. *)
Definition in_range (i : Z) : Prop := 0 ≤ i ≤ SIZE - 1.

Definition in_grid (p : Cell) : Prop := in_range p.1 ∧ in_range p.2.

(** A [SIZE] by [SIZE] list of lists. *)
Definition wf_grid (g : Grid) : Prop :=
  length g = Z.to_nat SIZE ∧ Forall (λ row, length row = Z.to_nat SIZE) g.

(** Every cell holds 0 or 1. *)
Definition binary (g : Grid) : Prop :=
  Forall (Forall (λ v, v = EMPTY ∨ v = SAND)) g.

(** Content of the cell at a position of the grid (0 outside it). *)
Definition cell (g : Grid) (p : Cell) : Z :=
  default 0 (row ← g !! Z.to_nat p.1; row !! Z.to_nat p.2).

(** The grid with one cell replaced. *)
Definition put (v : Z) (g : Grid) (p : Cell) : Grid :=
  alter (λ row, <[Z.to_nat p.2 := v]> row) (Z.to_nat p.1) g.

(** Cells in the order in which the double loop visits them. *)
Definition scan : list Cell :=
  row ← range SIZE; col ← range SIZE; [(row, col)].

(** The cell below [src] is in the grid and empty. *)
Definition can_fall (g : Grid) (src : Cell) : bool :=
  within_rows SIZE (src.1 + 1) && (cell g (src.1 + 1, src.2) =? 0).

(** Where the rule sends the particle of cell [src] when the lateral
    direction drawn is [dir]. *)
Definition destination (g : Grid) (src : Cell) (dir : Z) : Cell :=
  if can_fall g src then (src.1 + 1, src.2)
  else if within_cols SIZE (src.2 + dir) && within_rows SIZE (src.1 + 1)
          && (cell g (src.1 + 1, src.2 + dir) =? 0)
  then (src.1 + 1, src.2 + dir)
  else src.

(** Direction [choice((-1, 1))] returns in generator state [r]. *)
Definition lateral (r : R) : Z := if (pick2 r).1 then 1 else -1.

(** Source and destination of every particle met while visiting
    [cells] in order, with the generator state left at the end: a
    particle that can fall straight draws nothing. *)
Fixpoint project (g : Grid) (cells : list Cell) (r : R)
  : list (Cell * Cell) * R :=
  match cells with
  | [] => ([], r)
  | src :: rest =>
      if cell g src =? 1 then
        let r' := if can_fall g src then r else (pick2 r).2 in
        let '(mv, r'') := project g rest r' in
        ((src, destination g src (lateral r)) :: mv, r'')
      else project g rest r
  end.

(** A cell a particle cannot enter: outside the grid, or not empty. *)
Definition blocked (g : Grid) (p : Cell) : Prop :=
  ¬ in_grid p ∨ cell g p ≠ EMPTY.

(** Candidate cells of the brush in the order the loops of
    [handle_drag] produce them, as (row, column) of the grid. *)
Definition brush (RADIUS : Z) (mouse : Mouse) : list Cell :=
  let mxr := (get_pos mouse).1 `div` CELL_SIZE SIZE in
  let myc := (get_pos mouse).2 `div` CELL_SIZE SIZE in
  row ← range (RADIUS `div` 2); column ← range (RADIUS `div` 2);
  [(myc + column, mxr + row)].

(** Candidates that survive the thinning draw and the bounds check,
    with the generator state left at the end. *)
Fixpoint sprinkle (cands : list Cell) (r : R) : list Cell * R :=
  match cands with
  | [] => ([], r)
  | p :: rest =>
      let '(ps, r') := sprinkle rest (uniform_below r).2 in
      (if (uniform_below r).1 && (within_cols SIZE p.1 && within_rows SIZE p.2)
       then p :: ps else ps, r')
  end.

(** Cells painted in one tick. *)
Definition paint (RADIUS : Z) (mouse : Mouse) (r : R) : list Cell * R :=
  if negb (MOUSEBUTTONDOWN =? 0) && get_pressed0 mouse
  then sprinkle (brush RADIUS mouse) r
  else ([], r).

(** Number of sand cells. *)
Definition count_sand (g : Grid) : nat :=
  sum_list ((λ row, length (filter (λ v, v = SAND) row)) <$> g).

(** State [s] after more work: a new [next_grid] and generator state,
    and longer logs. *)
Definition after (s : Tick R) (g : Grid) (r : R)
    (acc ps : list Cell) (mv : list (Cell * Cell)) : Tick R :=
  {| next_grid := g; rng := r; accesses := accesses s ++ acc;
     painted := painted s ++ ps; moves := moves s ++ mv |}.

(** What one tick leaves behind, computed without the monad: the cells
    painted, the particles projected, and the grid holding sand exactly
    where something was written. *)
Definition outcome (RADIUS : Z) (g : Grid) (mouse : Mouse) (r : R)
    (acc : list Cell) : Tick R :=
  let ps := paint RADIUS mouse r in
  let mv := project g scan ps.2 in
  {| next_grid := foldl (put 1) (generate_grid SIZE) (ps.1 ++ mv.1.*2);
     rng := mv.2; accesses := acc; painted := ps.1; moves := mv.1 |}.
End Vocabulary.

(** ** Subscripts of a tick, in program order *)

Section Trace.
Variable SIZE : Z.
Context {R : Type} `{Random R}.

(** Positions subscripted by the loop body of [update_grid] on cell
    [src], in program order, when the direction drawn is [dir]: the cell
    itself, then for a particle the cell below (read only if row + 1
    passes [within_rows]), the diagonal cell (read only if the straight
    fall failed and both indices pass their checks), and the cell
    written. *)
Definition visit_trace (g : Grid) (src : Cell) (dir : Z) : list Cell :=
  let below := src.1 + 1 in
  src ::
  (if cell g src =? 1 then
     (if within_rows SIZE below then [(below, src.2)] else [])
     ++ (if can_fall SIZE g src then []
         else if within_cols SIZE (src.2 + dir) && within_rows SIZE below
              then [(below, src.2 + dir)] else [])
     ++ [destination SIZE g src dir]
   else []).

(** Positions subscripted by the double loop over [cells], the generator
    advancing as in [project]. *)
Fixpoint scan_trace (g : Grid) (cells : list Cell) (r : R) : list Cell :=
  match cells with
  | [] => []
  | src :: rest =>
      visit_trace g src (lateral r)
      ++ scan_trace g rest
           (if cell g src =? 1
            then if can_fall SIZE g src then r else (pick2 r).2
            else r)
  end.

(** Positions subscripted by one call of [update_grid]: a write per
    painted cell, then the double loop. *)
Definition tick_trace (RADIUS : Z) (g : Grid) (mouse : Mouse) (r : R)
  : list Cell :=
  let ps := paint SIZE RADIUS mouse r in
  ps.1 ++ scan_trace g (scan SIZE) ps.2.
End Trace.

(** ** Events *)

(** What [handle_events] looks at in an event of [pygame.event.get()]. *)
Inductive Event :=
  | QUIT                 (* event.type == pygame.QUIT *)
  | KEYDOWN (key : Z)    (* event.type == pygame.KEYDOWN, with event.key *)
  | OtherEvent.          (* any other event type *)

(** pygame's key codes. *)
Definition K_c : Z := 99.
Definition K_q : Z := 113.
Definition K_r : Z := 114.

(** Calls made on the mixer and on the click sound. *)
Inductive AudioCall := MixerStop | ClickPlay.

(** The attributes of [self] that change at run time, and the audio calls
    made so far. *)
Record App := {
  grid : Grid;
  running : bool;
  audio : list AudioCall
}.

(** Body of the event loop for one event; [busy] is what
    [pygame.mixer.get_busy()] answers if it is asked. *)
Definition handle_event (SIZE : Z) (self : App) (event : Event) (busy : bool)
  : App :=
  match event with
  | QUIT => {| grid := grid self; running := false; audio := audio self |}
  | KEYDOWN key =>
      if (key =? K_r) || (key =? K_c) then
        {| grid := generate_grid SIZE;
           running := running self;
           audio := audio self ++ (if busy then [MixerStop] else [])
                    ++ [ClickPlay] |}
      else if key =? K_q then
        {| grid := grid self; running := false; audio := audio self |}
      else self
  | OtherEvent => self
  end.

Definition handle_events (SIZE : Z) (self : App) (events : list (Event * bool))
  : App :=
  foldl (λ app ev, handle_event SIZE app ev.1 ev.2) self events.

(** [__init__], as far as these attributes go. *)
Definition init (SIZE : Z) : App :=
  {| grid := generate_grid SIZE; running := true; audio := [] |}.

Definition is_reset (event : Event) : bool :=
  match event with
  | KEYDOWN key => (key =? K_r) || (key =? K_c)
  | _ => false
  end.

(** ** Scheduler *)

(** The arithmetic the catch-up loop of [run] performs on time values.
    Python computes with binary64 floats; the same loop is also read over
    exact rationals. *)
Class TimeArith (T : Type) := {
  time_sub : T → T → T;
  time_add : T → T → T;
  time_ge : T → T → bool
}.

#[global] Instance float_time : TimeArith float := {|
  time_sub := PrimFloat.sub;
  time_add := PrimFloat.add;
  time_ge x y := PrimFloat.leb y x
|}.

#[global] Instance exact_time : TimeArith Q := {|
  time_sub := Qminus;
  time_add := Qplus;
  time_ge x y := Qle_bool y x
|}.

(** Variables of the inner loop of [run]; [ticks_run] counts the calls of
    [update_grid] and exists only for the statements. *)
Record Frame (T W : Type) := {
  elapsed_time : T;
  last_update_time : T;
  sim : W;
  ticks_run : nat
}.
Arguments elapsed_time {T W} _.
Arguments last_update_time {T W} _.
Arguments sim {T W} _.
Arguments ticks_run {T W} _.

(** [while elapsed_time >= self._delta_time: ...], with [fuel] bounding the
    number of iterations; [None] means the fuel ran out. *)
Fixpoint catch_up {T W : Type} `{TimeArith T} (fuel : nat) (delta_time : T)
    (update : W → W) (f : Frame T W) : option (Frame T W) :=
  if time_ge (elapsed_time f) delta_time then
    match fuel with
    | O => None
    | S fuel' =>
        catch_up fuel' delta_time update
          {| elapsed_time := time_sub (elapsed_time f) delta_time;
             last_update_time := time_add (last_update_time f) delta_time;
             sim := update (sim f);
             ticks_run := S (ticks_run f) |}
    end
  else Some f.

Definition TICKRATE : Z := 30.

(** [self._delta_time = 1 / self.TICKRATE]: the float Python computes
    (the quotient of the integers 1 and 30 rounded to binary64), and the
    exact quotient. *)
Definition float_delta_time : float := (1 / 30)%float.
Definition exact_delta_time : Q := 1 / inject_Z TICKRATE.

(** The rational number a finite float stands for. *)
Definition float_value (x : float) : option Q :=
  match Prim2SF x with
  | S754_zero _ => Some 0%Q
  | S754_finite s m e =>
      let q := (inject_Z (Z.pos m) * (2 ^ e))%Q in
      Some (if s then (- q)%Q else q)
  | _ => None
  end.

(** ** Statements and scenarios *)

(** No two logged moves with different sources share a destination. *)
Definition distinct_destinations (mv : list (Cell * Cell)) : Prop :=
  ∀ src1 src2 dst1 dst2,
    (src1, dst1) ∈ mv → (src2, dst2) ∈ mv → src1 ≠ src2 → dst1 ≠ dst2.

(** Generators whose every [choice((-1, 1))] returns 1, respectively -1. *)
Definition east_tape : Tape :=
  {| tape_pick := λ _, true; tape_uniform := λ _, true; tape_pos := 0 |}.
Definition west_tape : Tape :=
  {| tape_pick := λ _, false; tape_uniform := λ _, true; tape_pos := 0 |}.

(** Two particles side by side over a half-filled row. *)
Definition crowded_grid : Grid := [[1; 1]; [1; 0]].

(** Sand at (0,0) and (1,0) of a 3 by 3 grid. *)
Definition stacked_grid : Grid := [[1; 0; 0]; [1; 0; 0]; [0; 0; 0]].

(** A single particle at (0,1) of a 3 by 3 grid. *)
Definition single_grid : Grid := [[0; 1; 0]; [0; 0; 0]; [0; 0; 0]].

(** A single particle in the left corner of the bottom row of a 3 by 3
    grid. *)
Definition floor_grid : Grid := [[0; 0; 0]; [0; 0; 0]; [1; 0; 0]].

(** Full bottom row of a 2 by 2 grid. *)
Definition packed_grid : Grid := [[0; 0]; [1; 1]].

(** The button held with the pointer over the lower right of a 3 by 3
    grid, and with the pointer beyond the last row and column. *)
Definition corner_mouse : Mouse := {| get_pressed0 := true; get_pos := (700, 300) |}.
Definition outside_mouse : Mouse := {| get_pressed0 := true; get_pos := (799, 799) |}.

(** State of a tick on a 3 by 3 grid right after [next_grid] is created. *)
Definition fresh_tick : Tick Tape :=
  {| next_grid := generate_grid 3; rng := east_tape; accesses := [];
     painted := []; moves := [] |}.

(** ** Colors and drawing *)

(** Class [Color]: colours are sequences of integer components. *)
Module Color.
Definition WHITE : list Z := [255; 255; 255].
Definition BLACK : list Z := [0; 0; 0].
Definition RED : list Z := [255; 0; 0].
Definition GREEN : list Z := [0; 255; 0].
Definition BLUE : list Z := [0; 0; 255].
Definition YELLOW : list Z := [255; 255; 0].
Definition ORANGE : list Z := [255; 127; 0].
Definition MAGENTA : list Z := [255; 0; 255].
Definition PURPLE : list Z := [127; 0; 127].

(** [255 - color[0], 255 - color[1], 255 - color[2]] *)
Definition invert (color : list Z) : Result (list Z) :=
  c0 ← getitem color 0;
  c1 ← getitem color 1;
  c2 ← getitem color 2;
  Ok [255 - c0; 255 - c1; 255 - c2].
End Color.

(** Calls received by the drawing surface and the display. *)
Inductive DrawCall :=
  | Fill (color : list Z)                       (* screen.fill(color) *)
  | Rect (color : list Z) (rect : Z * Z * Z * Z)  (* pygame.draw.rect(screen, color, rect) *)
  | Flip.                                       (* pygame.display.flip() *)

(** [for x in l: body(x)] over a state [S], stopping at the first
    exception. *)
Fixpoint for_each {A S : Type} (l : list A) (body : A → S → Result S) (s : S)
  : Result S :=
  match l with
  | [] => Ok s
  | x :: l' => s' ← body x s; for_each l' body s'
  end.

(** [draw_grid]: one rectangle per cell, appended to the calls the screen
    has received. *)
Definition draw_grid (SIZE : Z) (grid : Grid) (screen : list DrawCall)
  : Result (list DrawCall) :=
  for_each (range SIZE) (λ row screen,
    for_each (range SIZE) (λ column screen,
      v ← (r ← getitem grid row; getitem r column);
      let color := if v =? 1 then Color.WHITE else Color.BLACK in
      Ok (screen ++ [Rect color (column * CELL_SIZE SIZE, row * CELL_SIZE SIZE,
                                 CELL_SIZE SIZE, CELL_SIZE SIZE)]))
      screen) screen.

Definition draw (SIZE : Z) (grid : Grid) (screen : list DrawCall)
  : Result (list DrawCall) :=
  screen' ← draw_grid SIZE grid (screen ++ [Fill Color.BLACK]);
  Ok (screen' ++ [Flip]).

(** The rectangle [draw_grid] draws for a cell, and the call it makes. *)
Definition cell_rect (SIZE : Z) (p : Cell) : Z * Z * Z * Z :=
  (p.2 * CELL_SIZE SIZE, p.1 * CELL_SIZE SIZE, CELL_SIZE SIZE, CELL_SIZE SIZE).

Definition cell_call (SIZE : Z) (g : Grid) (p : Cell) : DrawCall :=
  Rect (if cell g p =? 1 then Color.WHITE else Color.BLACK) (cell_rect SIZE p).

(** A rectangle (left, top, width, height) lies in the window. *)
Definition inside_window (rect : Z * Z * Z * Z) : Prop :=
  let '(x, y, w, h) := rect in
  0 ≤ x ∧ 0 ≤ y ∧ 0 ≤ w ∧ 0 ≤ h ∧ x + w ≤ WIDTH ∧ y + h ≤ HEIGHT.

(** Two rectangles share a pixel. *)
Definition overlap (r1 r2 : Z * Z * Z * Z) : Prop :=
  let '(x1, y1, w1, h1) := r1 in
  let '(x2, y2, w2, h2) := r2 in
  x1 < x2 + w2 ∧ x2 < x1 + w1 ∧ y1 < y2 + h2 ∧ y2 < y1 + h1.

(** A pixel lies in a rectangle. *)
Definition covers (rect : Z * Z * Z * Z) (x y : Z) : Prop :=
  let '(x0, y0, w, h) := rect in
  x0 ≤ x < x0 + w ∧ y0 ≤ y < y0 + h.

Definition is_white_rect (call : DrawCall) : bool :=
  match call with
  | Rect [255; 255; 255] _ => true
  | _ => false
  end.

(** ** More vocabulary for events and ticks *)

Definition is_quit (event : Event) : bool :=
  match event with
  | QUIT => true
  | KEYDOWN key => negb ((key =? K_r) || (key =? K_c)) && (key =? K_q)
  | OtherEvent => false
  end.

Definition clicks (calls : list AudioCall) : nat :=
  sum_list ((λ c, match c with ClickPlay => 1%nat | MixerStop => 0%nat end)
            <$> calls).

Definition stops (calls : list AudioCall) : nat :=
  sum_list ((λ c, match c with ClickPlay => 0%nat | MixerStop => 1%nat end)
            <$> calls).

(** Every sand cell of the grid is hemmed in: the cell below and both
    diagonal cells below are occupied or outside the grid. *)
Definition settled (SIZE : Z) (g : Grid) : Prop :=
  ∀ p, in_grid SIZE p → cell g p = SAND →
    blocked SIZE g (p.1 + 1, p.2)
    ∧ blocked SIZE g (p.1 + 1, p.2 - 1)
    ∧ blocked SIZE g (p.1 + 1, p.2 + 1).

(** ** The main loop *)

(** What one iteration of the loop of [run] reads from outside. *)
Record FrameInput (T : Type) := {
  events : list (Event * bool);  (* pygame.event.get(), with the mixer's answers *)
  current_time : T;              (* time.time() *)
  mouse_at : nat → Mouse         (* pointer state polled by the k-th tick *)
}.
Arguments events {T} _.
Arguments current_time {T} _.
Arguments mouse_at {T} _.

(** How the inner loop of [run] ends: normally, by an exception of
    [update_grid], or (in the model only) by lack of fuel. *)
Inductive LoopResult (T R : Type) :=
  | LoopDone (last_update_time : T) (g : Grid) (r : R) (ticked : nat)
  | LoopRaised (e : PyError)
  | LoopOutOfFuel.
Arguments LoopDone {T R} _ _ _ _.
Arguments LoopRaised {T R} _.
Arguments LoopOutOfFuel {T R}.

(** How one iteration of the loop of [run] ends: [shutdown] leaves the
    program, or the frame is drawn and the loop goes on. *)
Inductive FrameResult (T R : Type) :=
  | Exited (self : App)
  | Drawn (self : App) (r : R) (last_update_time : T) (ticked : nat)
          (screen : list DrawCall)
  | Raised (e : PyError)
  | OutOfFuel.
Arguments Exited {T R} _.
Arguments Drawn {T R} _ _ _ _ _.
Arguments Raised {T R} _.
Arguments OutOfFuel {T R}.

Section Run.
Variable SIZE : Z.
Variable RADIUS : Z.
Context {T R : Type} `{TimeArith T} `{Random R}.

(** [while elapsed_time >= self._delta_time: self.update_grid(); ...] *)
Fixpoint tick_loop (fuel : nat) (delta_time : T) (mouse : nat → Mouse)
    (elapsed last : T) (g : Grid) (r : R) (ticked : nat) : LoopResult T R :=
  if time_ge elapsed delta_time then
    match fuel with
    | O => LoopOutOfFuel
    | S fuel' =>
        match tick SIZE RADIUS g (mouse ticked) r with
        | Ok s =>
            tick_loop fuel' delta_time mouse
              (time_sub elapsed delta_time) (time_add last delta_time)
              (next_grid s) (rng s) (S ticked)
        | Raise e => LoopRaised e
        end
    end
  else LoopDone last g r ticked.

(** Body of [while self.running: ...] in [run]. *)
Definition frame (fuel : nat) (delta_time : T) (self : App) (r : R) (last : T)
    (screen : list DrawCall) (input : FrameInput T) : FrameResult T R :=
  let self := handle_events SIZE self (events input) in
  if negb (running self) then Exited self
  else
    let elapsed_time := time_sub (current_time input) last in
    match tick_loop fuel delta_time (mouse_at input) elapsed_time last
            (grid self) r 0 with
    | LoopDone last' g' r' ticked =>
        match draw SIZE g' screen with
        | Ok screen' =>
            Drawn {| grid := g'; running := running self; audio := audio self |}
                  r' last' ticked screen'
        | Raise e => Raised e
        end
    | LoopRaised e => Raised e
    | LoopOutOfFuel => OutOfFuel
    end.
End Run.

(** ** Properties *)

Section Primitives.
Variable SIZE : Z.
Context {R : Type} `{Random R}.

Lemma py_index_in_range (len : nat) (i : Z) :
  0 ≤ i < Z.of_nat len → py_index len i = Ok (Z.to_nat i).
Proof.
  intros Hi. unfold py_index.
  replace (0 <=? i) with true by (symmetry; apply Z.leb_le; lia).
  replace (i <? Z.of_nat len) with true by (symmetry; apply Z.ltb_lt; lia).
  done.
Qed.

Lemma within_rows_spec (i : Z) : within_rows SIZE i = true ↔ in_range SIZE i.
Proof.
  unfold within_rows, in_range.
  rewrite andb_true_iff, !Z.leb_le. done.
Qed.

Lemma within_cols_spec (i : Z) : within_cols SIZE i = true ↔ in_range SIZE i.
Proof. apply within_rows_spec. Qed.

Lemma in_range_nat (i : Z) : in_range SIZE i → (Z.to_nat i < Z.to_nat SIZE)%nat.
Proof. unfold in_range. lia. Qed.

Lemma getitem_in_range {A} (l : list A) (i : Z) (x : A) :
  0 ≤ i → l !! Z.to_nat i = Some x → getitem l i = Ok x.
Proof.
  intros Hi Hx. unfold getitem.
  rewrite py_index_in_range.
  - simpl. by rewrite Hx.
  - apply lookup_lt_Some in Hx. lia.
Qed.

Lemma wf_grid_row (g : Grid) (i : Z) :
  wf_grid SIZE g → in_range SIZE i →
  ∃ row, g !! Z.to_nat i = Some row ∧ length row = Z.to_nat SIZE.
Proof.
  intros [Hlen Hrows] Hi.
  destruct (lookup_lt_is_Some_2 g (Z.to_nat i)) as [row Hrow].
  { rewrite Hlen. by apply in_range_nat. }
  exists row. split; [done|].
  rewrite Forall_forall in Hrows. apply Hrows.
  by eapply list_elem_of_lookup_2.
Qed.

Lemma wf_grid_cell (g : Grid) (p : Cell) :
  wf_grid SIZE g → in_grid SIZE p →
  ∃ row, g !! Z.to_nat p.1 = Some row ∧ length row = Z.to_nat SIZE
         ∧ row !! Z.to_nat p.2 = Some (cell g p).
Proof.
  intros Hwf [Hr Hc].
  destruct (wf_grid_row g p.1 Hwf Hr) as (row & Hrow & Hlen).
  exists row. split_and!; [done..|].
  destruct (lookup_lt_is_Some_2 row (Z.to_nat p.2)) as [v Hv].
  { rewrite Hlen. by apply in_range_nat. }
  unfold cell. rewrite Hrow. simpl. by rewrite Hv.
Qed.

Lemma wf_grid_put (v : Z) (g : Grid) (p : Cell) :
  wf_grid SIZE g → wf_grid SIZE (put v g p).
Proof.
  intros [Hlen Hrows]. unfold put. split.
  - by rewrite length_alter.
  - rewrite Forall_forall in *. intros row Hin.
    apply list_elem_of_lookup in Hin as [i Hi].
    destruct (decide (i = Z.to_nat p.1)) as [->|Hne].
    + rewrite list_lookup_alter_eq in Hi.
      destruct (g !! Z.to_nat p.1) as [row0|] eqn:Hrow0; simplify_eq/=.
      rewrite length_insert. apply Hrows.
      by eapply list_elem_of_lookup_2.
    + rewrite list_lookup_alter_ne in Hi by done.
      apply Hrows. by eapply list_elem_of_lookup_2.
Qed.
End Primitives.

Section Cells.
Variable SIZE : Z.

Lemma cell_put (v : Z) (g : Grid) (p q : Cell) :
  wf_grid SIZE g → in_grid SIZE p → 0 ≤ q.1 → 0 ≤ q.2 →
  cell (put v g p) q = if decide (p = q) then v else cell g q.
Proof.
  intros Hwf Hp Hq1 Hq2.
  destruct (wf_grid_cell SIZE g p Hwf Hp) as (row & Hrow & Hlen & _).
  destruct Hp as [Hp1 Hp2]. unfold in_range in *.
  destruct p as [p1 p2], q as [q1 q2]; simpl in *.
  destruct (decide ((p1, p2) = (q1, q2))) as [Heq|Hne]; unfold cell, put; simpl.
  - simplify_eq. rewrite list_lookup_alter_eq, Hrow. simpl.
    rewrite list_lookup_insert_eq by lia. done.
  - destruct (decide (p1 = q1)) as [->|Hne1].
    + rewrite list_lookup_alter_eq, Hrow. simpl.
      rewrite list_lookup_insert_ne; [done|].
      intros Heq. apply Hne. f_equal. lia.
    + rewrite list_lookup_alter_ne by lia. done.
Qed.

Lemma cell_foldl_put (ps : list Cell) (g : Grid) (q : Cell) :
  wf_grid SIZE g → Forall (in_grid SIZE) ps → 0 ≤ q.1 → 0 ≤ q.2 →
  cell (foldl (put 1) g ps) q = if decide (q ∈ ps) then 1 else cell g q.
Proof.
  intros Hwf Hps Hq1 Hq2. revert g Hwf.
  induction Hps as [|p ps Hp Hps IH]; intros g Hwf; cbn [foldl].
  - case_decide as Hin; [by apply elem_of_nil in Hin|done].
  - rewrite IH by by apply wf_grid_put.
    rewrite cell_put by done.
    destruct (decide (q ∈ ps)) as [Hin|Hnin].
    + rewrite decide_True by (by apply list_elem_of_further). done.
    + destruct (decide (p = q)) as [->|Hne].
      * rewrite decide_True by apply list_elem_of_here. done.
      * rewrite decide_False; [done|].
        intros [?|?]%elem_of_cons; congruence.
Qed.

Lemma wf_grid_foldl_put (ps : list Cell) (g : Grid) :
  wf_grid SIZE g → wf_grid SIZE (foldl (put 1) g ps).
Proof.
  revert g. induction ps as [|p ps IH]; intros g Hwf; simpl; [done|].
  apply IH. by apply wf_grid_put.
Qed.

Lemma generate_grid_eq :
  generate_grid SIZE = replicate (Z.to_nat SIZE) (replicate (Z.to_nat SIZE) 0).
Proof.
  unfold generate_grid, range, seqZ.
  rewrite foldl_fmap.
  assert (∀ (k : nat) (acc : Grid) (m : nat),
    foldl (λ (grid : Grid) (_ : nat), grid ++ [replicate (Z.to_nat SIZE) 0])
          acc (seq m k)
    = acc ++ replicate k (replicate (Z.to_nat SIZE) 0)) as Hgen.
  { induction k as [|k IH]; intros acc m; simpl.
    - by rewrite app_nil_r.
    - rewrite IH, <- app_assoc. done. }
  rewrite Hgen. done.
Qed.

Lemma wf_generate_grid : wf_grid SIZE (generate_grid SIZE).
Proof.
  rewrite generate_grid_eq. split.
  - by rewrite length_replicate.
  - apply Forall_replicate. by rewrite length_replicate.
Qed.

Lemma cell_generate_grid (p : Cell) : cell (generate_grid SIZE) p = 0.
Proof.
  rewrite generate_grid_eq. unfold cell.
  destruct (replicate _ _ !! Z.to_nat p.1) as [row|] eqn:Hrow; [|done].
  apply lookup_replicate in Hrow as [-> _]. simpl.
  destruct (replicate _ _ !! Z.to_nat p.2) as [v|] eqn:Hv; [|done].
  apply lookup_replicate in Hv as [-> _]. done.
Qed.
End Cells.

(** Every logged position is one of a few cells known to be in the grid. *)
Ltac logged_in_grid :=
  repeat (apply List.Forall_cons; [done|]); apply List.Forall_nil.

Section Monad.
Variable SIZE : Z.
Context {R : Type} `{Random R}.

Lemma after_nothing (s : Tick R) :
  after s (next_grid s) (rng s) [] [] [] = s.
Proof. destruct s. unfold after. simpl. by rewrite !app_nil_r. Qed.

Lemma after_eq (s s' : Tick R) g r acc ps mv :
  next_grid s' = g → rng s' = r →
  accesses s' = accesses s ++ acc →
  painted s' = painted s ++ ps →
  moves s' = moves s ++ mv →
  s' = after s g r acc ps mv.
Proof. destruct s'. unfold after. simpl. by intros -> -> -> -> ->. Qed.

Lemma after_after (s : Tick R) g1 r1 a1 p1 m1 g2 r2 a2 p2 m2 :
  after (after s g1 r1 a1 p1 m1) g2 r2 a2 p2 m2
  = after s g2 r2 (a1 ++ a2) (p1 ++ p2) (m1 ++ m2).
Proof. unfold after. simpl. by rewrite !app_assoc. Qed.

Lemma bind_eq {A B} (m : M R A) (f : A → M R B) (s : Tick R) :
  (m ≫= f) s
  = match m s with Ok (a, s') => f a s' | Raise e => Raise e end.
Proof. done. Qed.

Lemma for_app {A} (l1 l2 : list A) (body : A → M R unit) (s : Tick R) :
  for_ (l1 ++ l2) body s = (for_ l1 body ;; for_ l2 body) s.
Proof.
  revert s. induction l1 as [|x l1 IH]; intros s; [done|].
  cbn [for_ app]. rewrite !bind_eq.
  destruct (body x s) as [[[] s']|e]; [|done].
  by rewrite IH, bind_eq.
Qed.

Lemma for_row {A B C} (f : A → B → C) (a : A) (l2 : list B)
    (body : C → M R unit) (s : Tick R) :
  for_ (b ← l2; [f a b]) body s = for_ l2 (λ b, body (f a b)) s.
Proof.
  revert s. induction l2 as [|b l2 IH]; intros s; [done|].
  change (b ← b :: l2; [f a b]) with (f a b :: (b ← l2; [f a b])).
  cbn [for_]. rewrite !bind_eq.
  destruct (body (f a b) s) as [[[] s']|e]; [|done]. apply IH.
Qed.

Lemma for_product {A B C} (f : A → B → C) (l1 : list A) (l2 : list B)
    (body : C → M R unit) (s : Tick R) :
  for_ l1 (λ a, for_ l2 (λ b, body (f a b))) s
  = for_ (a ← l1; b ← l2; [f a b]) body s.
Proof.
  revert s. induction l1 as [|a l1 IH]; intros s; [done|].
  change (a ← a :: l1; b ← l2; [f a b])
    with ((b ← l2; [f a b]) ++ (a ← l1; b ← l2; [f a b])).
  rewrite for_app. cbn [for_]. rewrite !bind_eq, for_row.
  destruct (for_ l2 _ s) as [[[] s']|e]; [|done]. apply IH.
Qed.

Lemma load_ok (g : Grid) (r c : Z) (s : Tick R) :
  wf_grid SIZE g → in_grid SIZE (r, c) →
  load g r c s
  = Ok (cell g (r, c), after s (next_grid s) (rng s) [(r, c)] [] []).
Proof.
  intros Hwf Hp.
  destruct (wf_grid_cell SIZE g _ Hwf Hp) as (row & Hrow & Hlen & Hv).
  destruct Hp as [Hp1 Hp2]. unfold in_range in *. simpl in *.
  unfold load, log_access, lift. rewrite !bind_eq.
  unfold mbind, Result_bind.
  rewrite (getitem_in_range g r row) by (done || lia).
  rewrite (getitem_in_range row c (cell g (r, c))) by (done || lia).
  unfold after. by rewrite !app_nil_r.
Qed.

Lemma store_next_ok (v r c : Z) (s : Tick R) :
  wf_grid SIZE (next_grid s) → in_grid SIZE (r, c) →
  store_next r c v s
  = Ok ((), after s (put v (next_grid s) (r, c)) (rng s) [(r, c)] [] []).
Proof.
  intros Hwf Hp.
  destruct (wf_grid_cell SIZE _ _ Hwf Hp) as (row & Hrow & Hlen & Hv).
  destruct Hp as [Hp1 Hp2]. unfold in_range in *. simpl in *.
  unfold store_next, log_access, get_next_grid, set_next_grid, lift.
  unfold mbind, M_bind. simpl.
  rewrite (getitem_in_range _ r row) by (done || lia).
  unfold setitem, mbind, Result_bind.
  rewrite !py_index_in_range by (destruct Hwf; lia).
  unfold after. simpl. rewrite !app_nil_r.
  do 3 f_equal.
  unfold put. simpl. apply list_eq. intros j.
  destruct (decide (j = Z.to_nat r)) as [->|Hne].
  - rewrite list_lookup_alter_eq, Hrow.
    rewrite list_lookup_insert_eq; [done|]. by eapply lookup_lt_Some.
  - rewrite list_lookup_alter_ne, list_lookup_insert_ne by done. done.
Qed.

Lemma destination_in_grid (g : Grid) (src : Cell) (dir : Z) :
  in_grid SIZE src → in_grid SIZE (destination SIZE g src dir).
Proof.
  intros [H1 H2]. unfold destination, can_fall.
  repeat case_match; try done;
    repeat match goal with
    | Hb : _ && _ = true |- _ => apply andb_true_iff in Hb as [? ?]
    | Hb : within_rows _ _ = true |- _ => apply within_rows_spec in Hb
    | Hb : within_cols _ _ = true |- _ => apply within_cols_spec in Hb
    end; by split.
Qed.

(** Symbolic execution of the monadic code under the lemmas above. *)
Ltac run_visit :=
  repeat first
    [ rewrite bind_eq
    | rewrite load_ok by done
    | rewrite store_next_ok by done
    | progress cbn [mret M_ret negb andb fst snd
                    next_grid rng accesses painted moves after] ].

Ltac finish_visit :=
  eexists; split;
  [ apply (f_equal (λ t, Ok ((), t))); apply after_eq;
    cbn [next_grid rng accesses painted moves];
    [ reflexivity | reflexivity | reflexivity
    | by rewrite ?app_nil_r | reflexivity ]
  | logged_in_grid ].

(** State left by the loop body on cell [src]. *)
Lemma visit_ok (g : Grid) (row col : Z) (s : Tick R) :
  wf_grid SIZE g → wf_grid SIZE (next_grid s) → in_grid SIZE (row, col) →
  ∃ acc,
    visit SIZE g row col s
    = Ok ((), if cell g (row, col) =? 1 then
                let dst := destination SIZE g (row, col) (lateral (rng s)) in
                after s (put 1 (next_grid s) dst)
                      (if can_fall SIZE g (row, col) then rng s
                       else (pick2 (rng s)).2)
                      acc [] [((row, col), dst)]
              else after s (next_grid s) (rng s) acc [] [])
    ∧ Forall (in_grid SIZE) acc.
Proof.
  intros Hg Hn Hsrc. unfold visit.
  rewrite bind_eq, load_ok by done.
  destruct (cell g (row, col) =? 1) eqn:Hcell; cbn [negb];
    [|by eexists; split; [done|]; logged_in_grid].
  apply Z.eqb_eq in Hcell. rewrite Hcell.
  unfold destination, can_fall, lateral, choice, sample, log_move.
  cbn [fst snd].
  destruct (within_rows SIZE (row + 1)) eqn:Hbelow.
  - assert (in_grid SIZE (row + 1, col)) as Hb.
    { split; [by apply within_rows_spec|apply Hsrc]. }
    run_visit.
    destruct (cell g (row + 1, col) =? 0) eqn:Hfree; run_visit.
    + rewrite <- ?app_assoc. finish_visit.
    + destruct (pick2 (rng s)) as [b r'] eqn:Hpick. run_visit.
      rewrite andb_true_r.
      destruct (within_cols SIZE (col + (if b then 1 else -1))) eqn:Hside.
      * assert (in_grid SIZE (row + 1, col + (if b then 1 else -1))) as Hd.
        { split; [by apply within_rows_spec|by apply within_cols_spec]. }
        run_visit.
        destruct (cell g (row + 1, col + (if b then 1 else -1)) =? 0)
          eqn:Hfree2; run_visit.
        all: rewrite <- ?app_assoc; finish_visit.
      * run_visit. rewrite <- ?app_assoc. finish_visit.
  - run_visit.
    destruct (pick2 (rng s)) as [b r'] eqn:Hpick. run_visit.
    rewrite andb_false_r. run_visit.
    rewrite <- ?app_assoc. finish_visit.
Qed.

(** The double loop of [update_grid], cell by cell. *)
Lemma scan_cells_ok (g : Grid) (cells : list Cell) (s : Tick R) :
  wf_grid SIZE g → wf_grid SIZE (next_grid s) →
  Forall (in_grid SIZE) cells →
  ∃ acc,
    for_ cells (λ p, visit SIZE g p.1 p.2) s
    = Ok ((), let mv := project SIZE g cells (rng s) in
              after s (foldl (put 1) (next_grid s) (mv.1.*2)) mv.2
                    acc [] mv.1)
    ∧ Forall (in_grid SIZE) acc.
Proof.
  intros Hg Hn Hcells. revert s Hn.
  induction Hcells as [|[row col] cells Hsrc Hcells IH]; intros s Hn.
  - exists []. split; [|done]. cbn. by rewrite after_nothing.
  - cbn [for_ fst snd]. rewrite bind_eq.
    destruct (visit_ok g row col s Hg Hn Hsrc) as (acc1 & -> & Hacc1).
    cbn [project].
    destruct (cell g (row, col) =? 1) eqn:Hcell.
    + cbv zeta.
      match goal with |- context [for_ cells _ ?s1] =>
        destruct (IH s1) as (acc2 & -> & Hacc2) end.
      { cbn [after next_grid]. by apply wf_grid_put. }
      cbn [after rng next_grid].
      destruct (project SIZE g cells _) as [mv r''].
      exists (acc1 ++ acc2). split; [|by apply Forall_app].
      cbv zeta. cbn [fst snd fmap list_fmap foldl].
      rewrite after_after. done.
    + destruct (IH (after s (next_grid s) (rng s) acc1 [] []))
        as (acc2 & -> & Hacc2); [done|].
      cbn [after rng next_grid]. cbv zeta.
      exists (acc1 ++ acc2). split; [|by apply Forall_app].
      rewrite after_after. done.
Qed.

Lemma in_grid_scan : Forall (in_grid SIZE) (scan SIZE).
Proof.
  apply Forall_forall. intros [row col] Hin. unfold scan in Hin.
  apply list_elem_of_bind in Hin as (r & Hin & Hr).
  apply list_elem_of_bind in Hin as (c & Hin & Hc).
  apply list_elem_of_singleton in Hin. simplify_eq.
  unfold range in *. apply elem_of_seqZ in Hr, Hc.
  split; unfold in_range; simpl; lia.
Qed.

(** The brush loop of [handle_drag], candidate by candidate. *)
Lemma sprinkle_one (p : Cell) (s : Tick R) :
  wf_grid SIZE (next_grid s) →
  ∃ acc,
    (b ← sample uniform_below;
     if b : bool then
       if within_cols SIZE p.1 && within_rows SIZE p.2
       then store_next p.1 p.2 1 ;; log_paint p
       else mret ()
     else mret ()) s
    = Ok ((), let go := (uniform_below (rng s)).1
                        && (within_cols SIZE p.1 && within_rows SIZE p.2) in
              after s (if go then put 1 (next_grid s) p else next_grid s)
                    (uniform_below (rng s)).2 acc
                    (if go then [p] else []) [])
    ∧ Forall (in_grid SIZE) acc.
Proof.
  intros Hn. destruct p as [c r]. cbn [fst snd].
  rewrite bind_eq. unfold sample.
  destruct (uniform_below (rng s)) as [[] r1] eqn:Hdraw; cbn [fst snd andb].
  - destruct (within_cols SIZE c && within_rows SIZE r) eqn:Hin.
    + apply andb_true_iff in Hin as [Hc Hr].
      assert (in_grid SIZE (c, r)) as Hcr.
      { split; [by apply within_cols_spec|by apply within_rows_spec]. }
      rewrite bind_eq, store_next_ok by done.
      unfold log_paint. cbn [next_grid rng accesses painted moves after].
      exists [(c, r)]. split; [|logged_in_grid].
      apply (f_equal (λ t, Ok ((), t))). apply after_eq;
        cbn [next_grid rng accesses painted moves];
        by rewrite ?app_nil_r.
    + exists []. split; [|done].
      apply (f_equal (λ t, Ok ((), t))). apply after_eq;
        cbn [next_grid rng accesses painted moves];
        by rewrite ?app_nil_r.
  - exists []. split; [|done].
    apply (f_equal (λ t, Ok ((), t))). apply after_eq;
      cbn [next_grid rng accesses painted moves];
      by rewrite ?app_nil_r.
Qed.

Lemma sprinkle_ok (cands : list Cell) (s : Tick R) :
  wf_grid SIZE (next_grid s) →
  ∃ acc,
    for_ cands (λ p,
      b ← sample uniform_below;
      if b : bool then
        if within_cols SIZE p.1 && within_rows SIZE p.2
        then store_next p.1 p.2 1 ;; log_paint p
        else mret ()
      else mret ()) s
    = Ok ((), let ps := sprinkle SIZE cands (rng s) in
              after s (foldl (put 1) (next_grid s) ps.1) ps.2 acc ps.1 [])
    ∧ Forall (in_grid SIZE) acc.
Proof.
  set (body := λ p : Cell, _).
  revert s. induction cands as [|p cands IH]; intros s Hn.
  - exists []. split; [|done]. cbn. by rewrite after_nothing.
  - cbn [for_ sprinkle]. rewrite bind_eq.
    destruct (sprinkle_one p s Hn) as (acc1 & Hone & Hacc1).
    fold (body p) in Hone. rewrite Hone. clear Hone.
    set (go := (uniform_below (rng s)).1 && _).
    match goal with |- context [for_ cands _ ?s1] =>
      destruct (IH s1) as (acc2 & -> & Hacc2) end.
    { cbn [after next_grid]. destruct go; [by apply wf_grid_put|done]. }
    cbn [after rng next_grid].
    destruct (sprinkle SIZE cands _) as [ps r2].
    exists (acc1 ++ acc2). split; [|by apply Forall_app].
    cbv zeta. cbn [fst snd]. rewrite after_after.
    by destruct go.
Qed.

Lemma handle_drag_ok (RADIUS : Z) (mouse : Mouse) (s : Tick R) :
  CELL_SIZE SIZE ≠ 0 → wf_grid SIZE (next_grid s) →
  ∃ acc,
    handle_drag SIZE RADIUS mouse s
    = Ok ((), let ps := sprinkle SIZE (brush SIZE RADIUS mouse) (rng s) in
              after s (foldl (put 1) (next_grid s) ps.1) ps.2 acc ps.1 [])
    ∧ Forall (in_grid SIZE) acc.
Proof.
  intros Hcs Hn. unfold handle_drag, brush.
  destruct (get_pos mouse) as [mx my]. cbn [fst snd].
  unfold floordiv. apply Z.eqb_neq in Hcs. rewrite Hcs.
  unfold lift at 1. rewrite bind_eq. unfold lift at 1. rewrite bind_eq.
  set (mxr := mx `div` CELL_SIZE SIZE). set (myc := my `div` CELL_SIZE SIZE).
  destruct (sprinkle_ok
    (row ← range (RADIUS `div` 2); column ← range (RADIUS `div` 2);
     [(myc + column, mxr + row)]) s Hn) as (acc & Hrun & Hacc).
  exists acc. split; [|done]. etrans; [|exact Hrun].
  exact (for_product (λ row column, (myc + column, mxr + row)) _ _ _ s).
Qed.

(** One tick never raises on a well-formed grid, and leaves exactly the
    state [outcome] describes. *)
Lemma tick_ok (RADIUS : Z) (g : Grid) (mouse : Mouse) (r : R) :
  wf_grid SIZE g → (get_pressed0 mouse = true → CELL_SIZE SIZE ≠ 0) →
  ∃ acc,
    tick SIZE RADIUS g mouse r = Ok (outcome SIZE RADIUS g mouse r acc)
    ∧ Forall (in_grid SIZE) acc.
Proof.
  intros Hg Hcs. unfold tick, update_grid.
  set (s0 := {| next_grid := generate_grid SIZE; rng := r; accesses := [];
                painted := []; moves := [] |}).
  rewrite bind_eq.
  change (set_next_grid (generate_grid SIZE) (start r)) with (Ok ((), s0)).
  cbv beta iota.
  assert (wf_grid SIZE (next_grid s0)) as Hn0 by apply wf_generate_grid.
  assert (∃ acc1,
    (if negb (MOUSEBUTTONDOWN =? 0)
     then if get_pressed0 mouse then handle_drag SIZE RADIUS mouse
          else mret ()
     else mret ()) s0
    = Ok ((), let ps := paint SIZE RADIUS mouse r in
              after s0 (foldl (put 1) (generate_grid SIZE) ps.1) ps.2
                    acc1 ps.1 [])
    ∧ Forall (in_grid SIZE) acc1) as (acc1 & Hpaint & Hacc1).
  { unfold paint. change (negb (MOUSEBUTTONDOWN =? 0)) with true.
    cbn [andb]. destruct (get_pressed0 mouse).
    - by apply handle_drag_ok; [apply Hcs|].
    - exists []. split; [|done]. cbn. by rewrite after_nothing. }
  rewrite bind_eq, Hpaint. clear Hpaint.
  destruct (paint SIZE RADIUS mouse r) as [ps r1] eqn:Hps.
  cbv zeta. cbn [fst snd].
  set (s1 := after s0 _ _ _ _ _).
  destruct (scan_cells_ok g (scan SIZE) s1 Hg) as (acc2 & Hscan & Hacc2).
  { subst s1. cbn [after next_grid]. by apply wf_grid_foldl_put. }
  { apply in_grid_scan. }
  assert (for_ (range SIZE)
            (λ row, for_ (range SIZE) (λ col, visit SIZE g row col)) s1
          = for_ (scan SIZE) (λ p, visit SIZE g p.1 p.2) s1) as ->
    by exact (for_product pair _ _ (λ p, visit SIZE g p.1 p.2) s1).
  rewrite Hscan.
  exists (acc1 ++ acc2). split; [|by apply Forall_app].
  f_equal. unfold outcome. rewrite Hps. subst s1 s0.
  unfold after. cbn [next_grid rng accesses painted moves fst snd].
  cbv zeta. rewrite foldl_app, !app_nil_r. done.
Qed.
(** The same executions with the subscripts listed instead of bounded. *)
Ltac finish_exact :=
  apply (f_equal (λ t, Ok ((), t))); apply after_eq;
  cbn [next_grid rng accesses painted moves app];
  rewrite <- ?app_assoc; rewrite ?app_nil_r; reflexivity.

Lemma visit_exact (g : Grid) (row col : Z) (s : Tick R) :
  wf_grid SIZE g → wf_grid SIZE (next_grid s) → in_grid SIZE (row, col) →
  visit SIZE g row col s
  = Ok ((), let acc := visit_trace SIZE g (row, col) (lateral (rng s)) in
            if cell g (row, col) =? 1 then
              let dst := destination SIZE g (row, col) (lateral (rng s)) in
              after s (put 1 (next_grid s) dst)
                    (if can_fall SIZE g (row, col) then rng s
                     else (pick2 (rng s)).2)
                    acc [] [((row, col), dst)]
            else after s (next_grid s) (rng s) acc [] []).
Proof.
  intros Hg Hn Hsrc. unfold visit, visit_trace. cbv zeta.
  rewrite bind_eq, load_ok by done. cbn [fst snd].
  destruct (cell g (row, col) =? 1) eqn:Hcell; cbn [negb]; [|done].
  apply Z.eqb_eq in Hcell. rewrite Hcell.
  unfold destination, can_fall, lateral, choice, sample, log_move.
  cbn [fst snd].
  destruct (within_rows SIZE (row + 1)) eqn:Hbelow.
  - assert (in_grid SIZE (row + 1, col)) as Hb.
    { split; [by apply within_rows_spec|apply Hsrc]. }
    run_visit.
    destruct (cell g (row + 1, col) =? 0) eqn:Hfree; run_visit.
    + finish_exact.
    + destruct (pick2 (rng s)) as [b r'] eqn:Hpick. run_visit.
      rewrite andb_true_r.
      destruct (within_cols SIZE (col + (if b then 1 else -1))) eqn:Hside.
      * assert (in_grid SIZE (row + 1, col + (if b then 1 else -1))) as Hd.
        { split; [by apply within_rows_spec|by apply within_cols_spec]. }
        run_visit.
        destruct (cell g (row + 1, col + (if b then 1 else -1)) =? 0)
          eqn:Hfree2; run_visit.
        all: finish_exact.
      * run_visit. finish_exact.
  - run_visit.
    destruct (pick2 (rng s)) as [b r'] eqn:Hpick. run_visit.
    rewrite andb_false_r. run_visit.
    finish_exact.
Qed.

Lemma scan_exact (g : Grid) (cells : list Cell) (s : Tick R) :
  wf_grid SIZE g → wf_grid SIZE (next_grid s) →
  Forall (in_grid SIZE) cells →
  for_ cells (λ p, visit SIZE g p.1 p.2) s
  = Ok ((), let mv := project SIZE g cells (rng s) in
            after s (foldl (put 1) (next_grid s) (mv.1.*2)) mv.2
                  (scan_trace SIZE g cells (rng s)) [] mv.1).
Proof.
  intros Hg Hn Hcells. revert s Hn.
  induction Hcells as [|[row col] cells Hsrc Hcells IH]; intros s Hn.
  - cbn. by rewrite after_nothing.
  - cbn [for_ fst snd]. rewrite bind_eq.
    rewrite (visit_exact g row col s Hg Hn Hsrc).
    cbn [project scan_trace]. cbv zeta.
    destruct (cell g (row, col) =? 1) eqn:Hcell.
    + rewrite IH by (cbn [after next_grid]; by apply wf_grid_put).
      cbn [after rng next_grid].
      destruct (project SIZE g cells _) as [mv r''].
      cbv zeta. cbn [fst snd fmap list_fmap foldl].
      by rewrite after_after.
    + rewrite IH by done.
      cbn [after rng next_grid]. cbv zeta.
      by rewrite after_after.
Qed.

Lemma sprinkle_one_exact (p : Cell) (s : Tick R) :
  wf_grid SIZE (next_grid s) →
  (b ← sample uniform_below;
   if b : bool then
     if within_cols SIZE p.1 && within_rows SIZE p.2
     then store_next p.1 p.2 1 ;; log_paint p
     else mret ()
   else mret ()) s
  = Ok ((), let go := (uniform_below (rng s)).1
                      && (within_cols SIZE p.1 && within_rows SIZE p.2) in
            after s (if go then put 1 (next_grid s) p else next_grid s)
                  (uniform_below (rng s)).2 (if go then [p] else [])
                  (if go then [p] else []) []).
Proof.
  intros Hn. destruct p as [c r]. cbn [fst snd].
  rewrite bind_eq. unfold sample.
  destruct (uniform_below (rng s)) as [[] r1] eqn:Hdraw; cbn [fst snd andb].
  - destruct (within_cols SIZE c && within_rows SIZE r) eqn:Hin.
    + apply andb_true_iff in Hin as [Hc Hr].
      assert (in_grid SIZE (c, r)) as Hcr.
      { split; [by apply within_cols_spec|by apply within_rows_spec]. }
      rewrite bind_eq, store_next_ok by done.
      unfold log_paint. cbn [next_grid rng accesses painted moves after].
      apply (f_equal (λ t, Ok ((), t))). apply after_eq;
        cbn [next_grid rng accesses painted moves];
        by rewrite ?app_nil_r.
    + apply (f_equal (λ t, Ok ((), t))). apply after_eq;
        cbn [next_grid rng accesses painted moves];
        by rewrite ?app_nil_r.
  - apply (f_equal (λ t, Ok ((), t))). apply after_eq;
      cbn [next_grid rng accesses painted moves];
      by rewrite ?app_nil_r.
Qed.

Lemma sprinkle_exact (cands : list Cell) (s : Tick R) :
  wf_grid SIZE (next_grid s) →
  for_ cands (λ p,
    b ← sample uniform_below;
    if b : bool then
      if within_cols SIZE p.1 && within_rows SIZE p.2
      then store_next p.1 p.2 1 ;; log_paint p
      else mret ()
    else mret ()) s
  = Ok ((), let ps := sprinkle SIZE cands (rng s) in
            after s (foldl (put 1) (next_grid s) ps.1) ps.2 ps.1 ps.1 []).
Proof.
  set (body := λ p : Cell, _).
  revert s. induction cands as [|p cands IH]; intros s Hn.
  - cbn. by rewrite after_nothing.
  - cbn [for_ sprinkle]. rewrite bind_eq.
    pose proof (sprinkle_one_exact p s Hn) as Hone.
    fold (body p) in Hone. rewrite Hone. clear Hone.
    set (go := (uniform_below (rng s)).1 && _).
    rewrite IH
      by (cbn [after next_grid]; destruct go; [by apply wf_grid_put|done]).
    cbn [after rng next_grid].
    destruct (sprinkle SIZE cands _) as [ps r2].
    cbv zeta. cbn [fst snd]. rewrite after_after.
    by destruct go.
Qed.

Lemma handle_drag_exact (RADIUS : Z) (mouse : Mouse) (s : Tick R) :
  CELL_SIZE SIZE ≠ 0 → wf_grid SIZE (next_grid s) →
  handle_drag SIZE RADIUS mouse s
  = Ok ((), let ps := sprinkle SIZE (brush SIZE RADIUS mouse) (rng s) in
            after s (foldl (put 1) (next_grid s) ps.1) ps.2 ps.1 ps.1 []).
Proof.
  intros Hcs Hn. unfold handle_drag, brush.
  destruct (get_pos mouse) as [mx my]. cbn [fst snd].
  unfold floordiv. apply Z.eqb_neq in Hcs. rewrite Hcs.
  unfold lift at 1. rewrite bind_eq. unfold lift at 1. rewrite bind_eq.
  set (mxr := mx `div` CELL_SIZE SIZE). set (myc := my `div` CELL_SIZE SIZE).
  etrans; [|exact (sprinkle_exact
    (row ← range (RADIUS `div` 2); column ← range (RADIUS `div` 2);
     [(myc + column, mxr + row)]) s Hn)].
  exact (for_product (λ row column, (myc + column, mxr + row)) _ _ _ s).
Qed.

(** One tick with its subscripts in program order. *)
Lemma tick_exact (RADIUS : Z) (g : Grid) (mouse : Mouse) (r : R) :
  wf_grid SIZE g → (get_pressed0 mouse = true → CELL_SIZE SIZE ≠ 0) →
  tick SIZE RADIUS g mouse r
  = Ok (outcome SIZE RADIUS g mouse r (tick_trace SIZE RADIUS g mouse r)).
Proof.
  intros Hg Hcs. unfold tick, update_grid.
  set (s0 := {| next_grid := generate_grid SIZE; rng := r; accesses := [];
                painted := []; moves := [] |}).
  rewrite bind_eq.
  change (set_next_grid (generate_grid SIZE) (start r)) with (Ok ((), s0)).
  cbv beta iota.
  assert (wf_grid SIZE (next_grid s0)) as Hn0 by apply wf_generate_grid.
  assert (
    (if negb (MOUSEBUTTONDOWN =? 0)
     then if get_pressed0 mouse then handle_drag SIZE RADIUS mouse
          else mret ()
     else mret ()) s0
    = Ok ((), let ps := paint SIZE RADIUS mouse r in
              after s0 (foldl (put 1) (generate_grid SIZE) ps.1) ps.2
                    ps.1 ps.1 [])) as Hpaint.
  { unfold paint. change (negb (MOUSEBUTTONDOWN =? 0)) with true.
    cbn [andb]. destruct (get_pressed0 mouse).
    - by apply handle_drag_exact; [apply Hcs|].
    - cbn. by rewrite after_nothing. }
  rewrite bind_eq, Hpaint. clear Hpaint.
  unfold tick_trace.
  destruct (paint SIZE RADIUS mouse r) as [ps r1] eqn:Hps.
  cbv zeta. cbn [fst snd].
  set (s1 := after s0 _ _ _ _ _).
  assert (for_ (range SIZE)
            (λ row, for_ (range SIZE) (λ col, visit SIZE g row col)) s1
          = for_ (scan SIZE) (λ p, visit SIZE g p.1 p.2) s1) as ->
    by exact (for_product pair _ _ (λ p, visit SIZE g p.1 p.2) s1).
  rewrite (scan_exact g (scan SIZE) s1 Hg);
    [|subst s1; cbn [after next_grid]; by apply wf_grid_foldl_put
     |apply in_grid_scan].
  f_equal. unfold outcome. rewrite Hps. subst s1 s0.
  unfold after. cbn [next_grid rng accesses painted moves fst snd].
  cbv zeta. rewrite foldl_app, !app_nil_r. done.
Qed.
End Monad.

(** ** The movement rule and the brush, as pure functions *)

Section Rules.
Variable SIZE : Z.
Context {R : Type} `{Random R}.

Lemma lateral_cases (r : R) : lateral r = -1 ∨ lateral r = 1.
Proof. unfold lateral. destruct (pick2 r).1; auto. Qed.

(** A particle either stays, or enters a cell of the row below that is
    in the grid, empty, and straight below or one column to the side. *)
Lemma destination_cases (g : Grid) (src : Cell) (dir : Z) :
  let dst := destination SIZE g src dir in
  (dst = src ∧ can_fall SIZE g src = false)
  ∨ (dst.1 = src.1 + 1 ∧ (dst.2 = src.2 ∨ dst.2 = src.2 + dir)
     ∧ in_range SIZE dst.1 ∧ cell g dst = EMPTY).
Proof.
  unfold destination, can_fall.
  destruct (within_rows SIZE (src.1 + 1)) eqn:Hrow; cbn [andb].
  - apply within_rows_spec in Hrow.
    destruct (cell g (src.1 + 1, src.2) =? 0) eqn:Hdown.
    + right. apply Z.eqb_eq in Hdown. cbn [fst snd]. auto.
    + rewrite andb_true_r.
      destruct (within_cols SIZE (src.2 + dir)); cbn [andb]; [|by left].
      destruct (cell g (src.1 + 1, src.2 + dir) =? 0) eqn:Hside; [|by left].
      right. apply Z.eqb_eq in Hside. cbn [fst snd]. auto.
  - rewrite andb_false_r. by left.
Qed.

Lemma destination_fall (g : Grid) (src : Cell) (dir : Z) :
  can_fall SIZE g src = true →
  destination SIZE g src dir = (src.1 + 1, src.2).
Proof. intros Hfall. unfold destination. by rewrite Hfall. Qed.

Lemma destination_rest (g : Grid) (src : Cell) (dir : Z) :
  in_grid SIZE src →
  blocked SIZE g (src.1 + 1, src.2) →
  blocked SIZE g (src.1 + 1, src.2 + dir) →
  destination SIZE g src dir = src.
Proof.
  intros [Hr Hc] Hdown Hside. unfold destination, can_fall.
  assert (within_rows SIZE (src.1 + 1) && (cell g (src.1 + 1, src.2) =? 0)
          = false) as ->.
  { apply andb_false_iff.
    destruct Hdown as [Hout|Hfull].
    - left. apply not_true_is_false. rewrite within_rows_spec.
      intros Hin. apply Hout. by split.
    - right. by apply Z.eqb_neq. }
  assert (within_cols SIZE (src.2 + dir) && within_rows SIZE (src.1 + 1)
          && (cell g (src.1 + 1, src.2 + dir) =? 0) = false) as ->; [|done].
  destruct Hside as [Hout|Hfull].
  - apply andb_false_iff. left. apply not_true_is_false.
    rewrite andb_true_iff, within_rows_spec, within_cols_spec.
    intros [Hin1 Hin2]. apply Hout. by split.
  - apply andb_false_iff. right. by apply Z.eqb_neq.
Qed.

(** The sources logged are the sand cells met, in order. *)
Lemma project_sources (g : Grid) (cells : list Cell) (r : R) :
  (project SIZE g cells r).1.*1 = filter (λ p, cell g p = SAND) cells.
Proof.
  revert r. induction cells as [|src cells IH]; intros r; [done|].
  cbn [project]. rewrite filter_cons.
  destruct (cell g src =? 1) eqn:Hcell.
  - apply Z.eqb_eq in Hcell. rewrite decide_True by done.
    specialize (IH (if can_fall SIZE g src then r else (pick2 r).2)).
    destruct (project SIZE g cells _) as [mv r'']. cbn in *. by rewrite IH.
  - apply Z.eqb_neq in Hcell. rewrite decide_False by done. apply IH.
Qed.

(** Every logged move follows the rule for one of the two directions. *)
Lemma project_moves (g : Grid) (cells : list Cell) (r : R) (src dst : Cell) :
  (src, dst) ∈ (project SIZE g cells r).1 →
  src ∈ cells ∧ cell g src = SAND
  ∧ ∃ dir, (dir = -1 ∨ dir = 1) ∧ dst = destination SIZE g src dir.
Proof.
  revert r. induction cells as [|p cells IH]; intros r Hin.
  - by apply elem_of_nil in Hin.
  - cbn [project] in Hin. destruct (cell g p =? 1) eqn:Hcell.
    + specialize (IH (if can_fall SIZE g p then r else (pick2 r).2)).
      destruct (project SIZE g cells _) as [mv r'']. cbn [fst] in *.
      apply elem_of_cons in Hin as [Heq|Hin].
      * simplify_eq. apply Z.eqb_eq in Hcell.
        split_and!; [apply list_elem_of_here|done|].
        exists (lateral r). split; [apply lateral_cases|done].
      * destruct (IH Hin) as (? & ? & ?).
        split_and!; [by apply list_elem_of_further|done..].
    + destruct (IH r Hin) as (? & ? & ?).
      split_and!; [by apply list_elem_of_further|done..].
Qed.

(** Every sand cell met is logged with a destination. *)
Lemma project_complete (g : Grid) (cells : list Cell) (r : R) (src : Cell) :
  src ∈ cells → cell g src = SAND →
  ∃ dir, (dir = -1 ∨ dir = 1)
         ∧ (src, destination SIZE g src dir) ∈ (project SIZE g cells r).1.
Proof.
  intros Hin Hsand. revert r.
  induction cells as [|p cells IH]; intros r.
  - by apply elem_of_nil in Hin.
  - cbn [project]. apply elem_of_cons in Hin as [<-|Hin].
    + apply Z.eqb_eq in Hsand. rewrite Hsand.
      destruct (project SIZE g cells _) as [mv r'']. cbn [fst].
      exists (lateral r). split; [apply lateral_cases|apply list_elem_of_here].
    + destruct (cell g p =? 1).
      * destruct (IH Hin (if can_fall SIZE g p then r else (pick2 r).2))
          as (dir & Hdir & Hmv).
        destruct (project SIZE g cells _) as [mv r'']. cbn [fst] in *.
        exists dir. split; [done|by apply list_elem_of_further].
      * apply (IH Hin).
Qed.

Lemma project_in_grid (g : Grid) (cells : list Cell) (r : R) :
  Forall (in_grid SIZE) cells →
  Forall (in_grid SIZE) (project SIZE g cells r).1.*2.
Proof.
  intros Hcells. apply Forall_forall. intros dst Hin.
  apply list_elem_of_fmap in Hin as ([src dst'] & -> & Hin).
  apply project_moves in Hin as (Hsrc & _ & dir & _ & ->).
  apply destination_in_grid. rewrite Forall_forall in Hcells. by apply Hcells.
Qed.

(** Painted cells are candidates of the brush that lie in the grid. *)
Lemma sprinkle_painted (cands : list Cell) (r : R) (p : Cell) :
  p ∈ (sprinkle SIZE cands r).1 → p ∈ cands ∧ in_grid SIZE p.
Proof.
  revert r. induction cands as [|q cands IH]; intros r Hin.
  - by apply elem_of_nil in Hin.
  - cbn [sprinkle] in Hin.
    specialize (IH (uniform_below r).2).
    destruct (sprinkle SIZE cands _) as [ps r']. cbn [fst] in *.
    destruct ((uniform_below r).1
              && (within_cols SIZE q.1 && within_rows SIZE q.2)) eqn:Hgo.
    + apply elem_of_cons in Hin as [->|Hin].
      * apply andb_true_iff in Hgo as [_ [Hc Hr]%andb_true_iff].
        split; [apply list_elem_of_here|].
        split; [by apply within_cols_spec|by apply within_rows_spec].
      * destruct (IH Hin). split; [by apply list_elem_of_further|done].
    + destruct (IH Hin). split; [by apply list_elem_of_further|done].
Qed.

Lemma paint_painted (RADIUS : Z) (mouse : Mouse) (r : R) (p : Cell) :
  p ∈ (paint SIZE RADIUS mouse r).1 →
  get_pressed0 mouse = true ∧ p ∈ brush SIZE RADIUS mouse ∧ in_grid SIZE p.
Proof.
  unfold paint. destruct (negb _ && get_pressed0 mouse) eqn:Hgo.
  - intros Hin%sprinkle_painted.
    by apply andb_true_iff in Hgo as [_ ->].
  - intros Hin. by apply elem_of_nil in Hin.
Qed.

Lemma paint_no_paint (RADIUS : Z) (r : R) :
  paint SIZE RADIUS no_paint r = ([], r).
Proof. unfold paint. cbn [no_paint get_pressed0]. by rewrite andb_false_r. Qed.

Lemma paint_in_grid (RADIUS : Z) (mouse : Mouse) (r : R) :
  Forall (in_grid SIZE) (paint SIZE RADIUS mouse r).1.
Proof.
  apply Forall_forall. intros p Hin. by apply paint_painted in Hin as (_ & _ & ?).
Qed.

(** Content of every cell of the grid a tick produces. *)
Lemma cell_outcome (RADIUS : Z) (g : Grid) (mouse : Mouse) (r : R)
    (acc : list Cell) (q : Cell) :
  let s := outcome SIZE RADIUS g mouse r acc in
  0 ≤ q.1 → 0 ≤ q.2 →
  cell (next_grid s) q
  = if decide (q ∈ painted s ++ (moves s).*2) then SAND else EMPTY.
Proof.
  intros s Hq1 Hq2. subst s. unfold outcome.
  cbn [next_grid painted moves].
  rewrite (cell_foldl_put SIZE);
    [by rewrite cell_generate_grid|apply wf_generate_grid| |done..].
  apply Forall_app. split; [apply paint_in_grid|].
  apply project_in_grid, in_grid_scan.
Qed.

Lemma wf_outcome (RADIUS : Z) (g : Grid) (mouse : Mouse) (r : R)
    (acc : list Cell) :
  wf_grid SIZE (next_grid (outcome SIZE RADIUS g mouse r acc)).
Proof. apply wf_grid_foldl_put, wf_generate_grid. Qed.

Lemma elem_of_scan (p : Cell) : p ∈ scan SIZE ↔ in_grid SIZE p.
Proof.
  split.
  - intros Hin. pose proof (in_grid_scan SIZE) as Hall.
    rewrite Forall_forall in Hall. by apply Hall.
  - intros [Hr Hc]. unfold scan, in_range in *. destruct p as [row col].
    apply list_elem_of_bind. exists row. split.
    + apply list_elem_of_bind. exists col. split.
      * by apply list_elem_of_singleton.
      * apply elem_of_seqZ. simpl in *. lia.
    + apply elem_of_seqZ. simpl in *. lia.
Qed.

Lemma NoDup_scan : NoDup (scan SIZE).
Proof.
  unfold scan. apply NoDup_bind; [| |apply NoDup_seqZ].
  - intros r1 r2 p _ _ Hp1 Hp2.
    apply list_elem_of_bind in Hp1 as (c1 & Hp1 & _).
    apply list_elem_of_bind in Hp2 as (c2 & Hp2 & _).
    apply list_elem_of_singleton in Hp1, Hp2. congruence.
  - intros r _. apply NoDup_bind; [| |apply NoDup_seqZ].
    + intros c1 c2 p _ _ Hp1 Hp2.
      apply list_elem_of_singleton in Hp1, Hp2. congruence.
    + intros c _. apply NoDup_singleton.
Qed.
End Rules.

(** ** Collisions between particles *)

Section Collisions.
Variable SIZE : Z.
Variable RADIUS : Z.
Context {R : Type} `{Random R}.

(** C1 (as amended): on every grid and for every paint input and random
    choices, the tick logs one move per sand cell, and two different
    sand cells get the same destination only when they lie in the same
    row, at most two columns apart, and both enter the same cell of the
    row below, empty in the current grid; a particle that rests shares
    its destination with no other particle. *)
Theorem destinations_collide_only_below (g : Grid) (mouse : Mouse) (r : R) :
  wf_grid SIZE g → (get_pressed0 mouse = true → CELL_SIZE SIZE ≠ 0) →
  ∃ s, tick SIZE RADIUS g mouse r = Ok s
    ∧ (moves s).*1 = filter (λ p, cell g p = SAND) (scan SIZE)
    ∧ NoDup (moves s).*1
    ∧ ∀ src1 src2 dst1 dst2,
        (src1, dst1) ∈ moves s → (src2, dst2) ∈ moves s →
        src1 ≠ src2 → dst1 = dst2 →
        src1.1 = src2.1 ∧ dst1.1 = src1.1 + 1
        ∧ -2 ≤ src1.2 - src2.2 ≤ 2
        ∧ dst1 ≠ src1 ∧ dst2 ≠ src2 ∧ cell g dst1 = EMPTY.
Proof.
  intros Hg Hcs.
  destruct (tick_ok SIZE RADIUS g mouse r Hg Hcs) as (acc & -> & _).
  eexists. split; [done|]. unfold outcome. cbn [moves].
  split; [apply project_sources|].
  split; [rewrite project_sources; apply NoDup_filter, NoDup_scan|].
  intros src1 src2 dst1 dst2 H1 H2 Hne <-.
  apply project_moves in H1 as (_ & Hs1 & d1 & Hd1 & E1).
  apply project_moves in H2 as (_ & Hs2 & d2 & Hd2 & E2).
  pose proof (destination_cases SIZE g src1 d1) as C1.
  pose proof (destination_cases SIZE g src2 d2) as C2.
  cbv zeta in C1, C2. rewrite <- E1 in C1. rewrite <- E2 in C2.
  destruct C1 as [[-> _]|(Hr1 & Hc1 & _ & He1)];
    destruct C2 as [[-> _]|(Hr2 & Hc2 & _ & He2)]; try congruence.
  split_and!; try done; try lia.
  - intros ->. congruence.
  - intros ->. congruence.
Qed.
End Collisions.

(** The amended statement at the crowded grid. *)
Lemma destinations_collide_only_below_witness :
  wf_grid 2 crowded_grid
  ∧ (get_pressed0 no_paint = true → CELL_SIZE 2 ≠ 0)
  ∧ ∃ s, tick 2 5 crowded_grid no_paint east_tape = Ok s
      ∧ (moves s).*1 = filter (λ p, cell crowded_grid p = SAND) (scan 2)
      ∧ NoDup (moves s).*1
      ∧ ∀ src1 src2 dst1 dst2,
          (src1, dst1) ∈ moves s → (src2, dst2) ∈ moves s →
          src1 ≠ src2 → dst1 = dst2 →
          src1.1 = src2.1 ∧ dst1.1 = src1.1 + 1
          ∧ -2 ≤ src1.2 - src2.2 ≤ 2
          ∧ dst1 ≠ src1 ∧ dst2 ≠ src2 ∧ cell crowded_grid dst1 = EMPTY.
Proof.
  assert (wf_grid 2 crowded_grid) as Hwf.
  { split; [reflexivity|repeat constructor]. }
  assert (get_pressed0 no_paint = true → CELL_SIZE 2 ≠ 0) as Hcs.
  { vm_compute. discriminate. }
  split; [exact Hwf|]. split; [exact Hcs|].
  exact (destinations_collide_only_below 2 5 crowded_grid no_paint east_tape
           Hwf Hcs).
Defined.

(** C1 (as stated) fails: with every lateral choice equal to +1 the
    particle of (0,0), blocked below, slides to (1,1), the very cell the
    particle of (0,1) falls into. *)
Lemma distinct_destinations_counterexample :
  wf_grid 2 crowded_grid
  ∧ ∃ s, tick 2 5 crowded_grid no_paint east_tape = Ok s
      ∧ moves s = [((0, 0), (1, 1)); ((0, 1), (1, 1)); ((1, 0), (1, 0))]
      ∧ next_grid s = [[0; 0]; [1; 1]]
      ∧ ¬ distinct_destinations (moves s).
Proof.
  split; [split; [reflexivity|repeat constructor]|].
  eexists. split; [vm_compute; reflexivity|].
  cbn [moves next_grid]. split; [reflexivity|]. split; [reflexivity|].
  intros Hdistinct.
  apply (Hdistinct (0, 0) (0, 1) (1, 1) (1, 1)).
  - apply list_elem_of_here.
  - apply list_elem_of_further, list_elem_of_here.
  - discriminate.
  - reflexivity.
Qed.

(** ** Scenarios on small grids *)

(** C2 (as amended): on the 3 by 3 grid with sand exactly at (0,0) and
    (1,0) and no paint input, the particle of (1,0) falls to (2,0), and the
    particle of (0,0), blocked below, moves to (1,1) when the lateral
    choice drawn for it is +1 and stays at (0,0) when it is -1 (the left
    diagonal is outside the grid). *)
Theorem stacked_particle_slides_east_only
    (RADIUS : Z) {R : Type} `{Random R} (r : R) :
  ∃ s, tick 3 RADIUS stacked_grid no_paint r = Ok s
    ∧ painted s = []
    ∧ rng s = (pick2 r).2
    ∧ moves s = [((0, 0), if (pick2 r).1 then (1, 1) else (0, 0));
                 ((1, 0), (2, 0))]
    ∧ next_grid s = if (pick2 r).1
                    then [[0; 0; 0]; [0; 1; 0]; [1; 0; 0]]
                    else [[1; 0; 0]; [0; 0; 0]; [1; 0; 0]].
Proof.
  destruct H as [pk un]. cbn [pick2].
  destruct (pk r) as [[] r'] eqn:Hpk.
  all: eexists; split; [vm_compute; rewrite Hpk; reflexivity|].
  all: cbn [painted rng moves next_grid fst snd]; auto.
Qed.

(** C2 (as stated) fails: when the lateral choice is -1 the particle of
    (0,0) stays where it is and (1,1) remains empty. *)
Lemma stacked_particle_counterexample :
  ∃ s, tick 3 5 stacked_grid no_paint west_tape = Ok s
    ∧ moves s = [((0, 0), (0, 0)); ((1, 0), (2, 0))]
    ∧ next_grid s = [[1; 0; 0]; [0; 0; 0]; [1; 0; 0]]
    ∧ cell (next_grid s) (1, 1) = EMPTY
    ∧ ((0, 0), (1, 1)) ∉ moves s.
Proof.
  eexists. split; [vm_compute; reflexivity|].
  cbn [moves next_grid]. split_and!; try reflexivity.
  intros Hin. repeat (apply elem_of_cons in Hin as [Hin|Hin]; [discriminate|]).
  by apply elem_of_nil in Hin.
Qed.

(** ** A single particle *)

Section SingleParticle.
Variable SIZE : Z.
Variable RADIUS : Z.
Context {R : Type} `{Random R}.

Lemma project_none (g : Grid) (cells : list Cell) (r : R) :
  Forall (λ p, cell g p ≠ SAND) cells → project SIZE g cells r = ([], r).
Proof.
  induction 1 as [|p cells Hp _ IH]; [done|].
  cbn [project]. apply Z.eqb_neq in Hp. by rewrite Hp.
Qed.

Lemma project_single (g : Grid) (cells : list Cell) (src : Cell) (r : R) :
  NoDup cells → src ∈ cells → cell g src = SAND →
  (∀ p, p ∈ cells → p ≠ src → cell g p ≠ SAND) →
  can_fall SIZE g src = true →
  project SIZE g cells r = ([(src, (src.1 + 1, src.2))], r).
Proof.
  intros Hnd Hin Hsand Hothers Hfall.
  induction Hnd as [|p cells Hp Hnd IH]; [by apply elem_of_nil in Hin|].
  cbn [project]. destruct (decide (p = src)) as [->|Hne].
  - apply Z.eqb_eq in Hsand. rewrite Hsand, Hfall.
    rewrite destination_fall by done. rewrite project_none; [done|].
    apply Forall_forall. intros q Hq. apply Hothers.
    + by apply list_elem_of_further.
    + intros ->. done.
  - assert (cell g p ≠ SAND) as Hempty.
    { apply Hothers; [apply list_elem_of_here|done]. }
    apply Z.eqb_neq in Hempty. rewrite Hempty. apply IH.
    + apply elem_of_cons in Hin as [?|?]; [congruence|done].
    + intros q Hq. apply Hothers. by apply list_elem_of_further.
Qed.

Lemma lone_particle_falls (g : Grid) (row col : Z) (r : R) :
  wf_grid SIZE g → in_grid SIZE (row, col) →
  cell g (row, col) = SAND →
  (∀ p, in_grid SIZE p → p ≠ (row, col) → cell g p ≠ SAND) →
  in_range SIZE (row + 1) → cell g (row + 1, col) = EMPTY →
  ∃ s, tick SIZE RADIUS g no_paint r = Ok s
    ∧ moves s = [((row, col), (row + 1, col))]
    ∧ painted s = []
    ∧ rng s = r
    ∧ next_grid s = put SAND (generate_grid SIZE) (row + 1, col)
    ∧ wf_grid SIZE (next_grid s)
    ∧ ∀ p, in_grid SIZE p →
        cell (next_grid s) p
        = if decide (p = (row + 1, col)) then SAND else EMPTY.
Proof.
  intros Hg Hsrc Hsand Hothers Hbelow Hfree.
  destruct (tick_ok SIZE RADIUS g no_paint r Hg) as (acc & -> & _);
    [done|].
  assert (project SIZE g (scan SIZE) r = ([((row, col), (row + 1, col))], r))
    as Hproj.
  { apply (project_single g (scan SIZE) (row, col)); try done.
    - apply NoDup_scan.
    - by apply elem_of_scan.
    - intros p Hp. apply Hothers. by apply elem_of_scan.
    - unfold can_fall. cbn [fst snd].
      apply andb_true_iff. split; [by apply within_rows_spec|].
      by apply Z.eqb_eq. }
  eexists. split; [done|].
  unfold outcome. rewrite paint_no_paint. cbn [fst snd]. rewrite Hproj.
  cbn [next_grid rng painted moves fst snd app fmap list_fmap foldl].
  split_and!; try done.
  - apply wf_grid_put, wf_generate_grid.
  - intros p [Hp1 Hp2]. unfold in_range in *.
    rewrite (cell_put SIZE), cell_generate_grid;
      [|apply wf_generate_grid| |lia..].
    + by repeat case_decide.
    + split; [done|apply Hsrc].
Qed.
End SingleParticle.

(** C3: on a grid whose only sand cell is (row, col), with the cell
    below in range and empty, one tick without paint input moves the
    particle straight down: the only move logged is (row, col) to
    (row+1, col), no random choice is drawn, and the new grid has sand
    at (row+1, col) and nowhere else.  In particular the 3 by 3 grid with
    a single particle at (0,1) becomes the grid with a single particle at
    (1,1), whatever the generator. *)
Theorem single_particle_falls :
  (∀ (SIZE RADIUS : Z) (R : Type) (H : Random R)
     (g : Grid) (row col : Z) (r : R),
     wf_grid SIZE g → in_grid SIZE (row, col) →
     cell g (row, col) = SAND →
     (∀ p, in_grid SIZE p → p ≠ (row, col) → cell g p ≠ SAND) →
     in_range SIZE (row + 1) → cell g (row + 1, col) = EMPTY →
     ∃ s, tick SIZE RADIUS g no_paint r = Ok s
       ∧ moves s = [((row, col), (row + 1, col))]
       ∧ painted s = []
       ∧ rng s = r
       ∧ next_grid s = put SAND (generate_grid SIZE) (row + 1, col)
       ∧ wf_grid SIZE (next_grid s)
       ∧ ∀ p, in_grid SIZE p →
           cell (next_grid s) p
           = if decide (p = (row + 1, col)) then SAND else EMPTY)
  ∧ (∀ (RADIUS : Z) (R : Type) (H : Random R) (r : R),
       ∃ s, tick 3 RADIUS single_grid no_paint r = Ok s
         ∧ next_grid s = [[0; 0; 0]; [0; 1; 0]; [0; 0; 0]]
         ∧ moves s = [((0, 1), (1, 1))]).
Proof.
  split.
  - intros. by apply lone_particle_falls.
  - intros RADIUS R H r. eexists. split; [vm_compute; reflexivity|].
    split; reflexivity.
Qed.

(** The general statement at the 3 by 3 grid with a single particle at
    (0,1): after one tick the sand is at (1,1) and nowhere else. *)
Lemma single_particle_falls_witness :
  wf_grid 3 single_grid ∧ in_grid 3 (0, 1)
  ∧ cell single_grid (0, 1) = SAND
  ∧ (∀ p, in_grid 3 p → p ≠ (0, 1) → cell single_grid p ≠ SAND)
  ∧ in_range 3 (0 + 1) ∧ cell single_grid (0 + 1, 1) = EMPTY
  ∧ ∃ s, tick 3 5 single_grid no_paint west_tape = Ok s
      ∧ next_grid s = [[0; 0; 0]; [0; 1; 0]; [0; 0; 0]].
Proof.
  assert (wf_grid 3 single_grid) as Hwf.
  { split; [reflexivity|repeat constructor]. }
  assert (in_grid 3 (0, 1)) as Hsrc.
  { unfold in_grid, in_range. simpl. lia. }
  assert (∀ p, in_grid 3 p → p ≠ (0, 1) → cell single_grid p ≠ SAND)
    as Hothers.
  { intros [i j] [Hi Hj] Hne. unfold in_range in *. simpl in *.
    assert (i = 0 ∨ i = 1 ∨ i = 2) as [-> | [-> | ->]] by lia;
      assert (j = 0 ∨ j = 1 ∨ j = 2) as [-> | [-> | ->]] by lia;
      vm_compute; congruence. }
  assert (in_range 3 (0 + 1)) as Hbelow by (unfold in_range; lia).
  split_and!; [exact Hwf|exact Hsrc|reflexivity|exact Hothers|exact Hbelow
              |reflexivity|].
  destruct (proj1 single_particle_falls 3 5 Tape _ single_grid 0 1 west_tape
              Hwf Hsrc eq_refl Hothers Hbelow eq_refl)
    as (s & Htick & _ & _ & _ & Hnext & _).
  exists s. split; [exact Htick|]. rewrite Hnext. reflexivity.
Defined.

(** ** Particles at rest *)

Section Rest.
Variable SIZE : Z.
Variable RADIUS : Z.
Context {R : Type} `{Random R}.

Lemma particle_rests_in_place
    (g : Grid) (mouse : Mouse) (r : R) (row col : Z) :
  wf_grid SIZE g → (get_pressed0 mouse = true → CELL_SIZE SIZE ≠ 0) →
  in_grid SIZE (row, col) → cell g (row, col) = SAND →
  blocked SIZE g (row + 1, col) →
  blocked SIZE g (row + 1, col - 1) →
  blocked SIZE g (row + 1, col + 1) →
  ∃ s, tick SIZE RADIUS g mouse r = Ok s
    ∧ ((row, col), (row, col)) ∈ moves s
    ∧ (∀ dst, ((row, col), dst) ∈ moves s → dst = (row, col))
    ∧ cell (next_grid s) (row, col) = SAND.
Proof.
  intros Hg Hcs Hsrc Hsand Hdown Hleft Hright.
  destruct (tick_ok SIZE RADIUS g mouse r Hg Hcs) as (acc & -> & _).
  assert (∀ dir, dir = -1 ∨ dir = 1 →
            destination SIZE g (row, col) dir = (row, col)) as Hrest.
  { intros dir [-> | ->]; by apply destination_rest. }
  eexists. split; [done|].
  assert (((row, col), (row, col))
          ∈ moves (outcome SIZE RADIUS g mouse r acc)) as Hlogged.
  { unfold outcome. cbn [moves].
    destruct (project_complete SIZE g (scan SIZE)
                (paint SIZE RADIUS mouse r).2 (row, col))
      as (dir & Hdir & Hin); [by apply elem_of_scan|done|].
    by rewrite Hrest in Hin. }
  split_and!.
  - done.
  - intros dst Hin. unfold outcome in Hin. cbn [moves] in Hin.
    apply project_moves in Hin as (_ & _ & dir & Hdir & ->). by apply Hrest.
  - rewrite cell_outcome; [|apply Hsrc..].
    rewrite decide_True; [done|].
    apply elem_of_app. right.
    apply list_elem_of_fmap. by exists ((row, col), (row, col)).
Qed.
End Rest.

(** One tick leaves the packed 2 by 2 grid as it is, whatever is drawn. *)
Lemma packed_grid_tick (RADIUS : Z) {R : Type} `{Random R} (r : R) :
  ∃ s, tick 2 RADIUS packed_grid no_paint r = Ok s
    ∧ next_grid s = packed_grid
    ∧ moves s = [((1, 0), (1, 0)); ((1, 1), (1, 1))].
Proof.
  destruct H as [pk un].
  destruct (pk r) as [b1 r1] eqn:Hpk1.
  destruct (pk r1) as [b2 r2] eqn:Hpk2.
  destruct b1, b2.
  all: eexists; split;
    [vm_compute; rewrite Hpk1; cbv beta iota; rewrite Hpk2; reflexivity|].
  all: split; reflexivity.
Qed.

Lemma packed_grid_ticks (RADIUS : Z) {R : Type} `{Random R} (n : nat) (r : R) :
  ∃ r', ticks 2 RADIUS n packed_grid r = Ok (packed_grid, r').
Proof.
  revert r. induction n as [|n IH]; intros r; [by exists r|].
  destruct (packed_grid_tick RADIUS r) as (s & Htick & Hnext & _).
  cbn [ticks]. rewrite Htick. cbn [mbind Result_bind]. rewrite Hnext.
  apply IH.
Qed.

(** C4: a sand cell whose cell below and whose two diagonal destinations
    are each occupied or outside the grid is logged as resting and holds
    sand after the tick, for every paint input and every random choice;
    and the 2 by 2 grid with a full bottom row is left unchanged by one
    tick without paint input, and by any number of them. *)
Theorem blocked_particle_rests :
  (∀ (SIZE RADIUS : Z) (R : Type) (H : Random R)
     (g : Grid) (mouse : Mouse) (r : R) (row col : Z),
     wf_grid SIZE g → (get_pressed0 mouse = true → CELL_SIZE SIZE ≠ 0) →
     in_grid SIZE (row, col) → cell g (row, col) = SAND →
     blocked SIZE g (row + 1, col) →
     blocked SIZE g (row + 1, col - 1) →
     blocked SIZE g (row + 1, col + 1) →
     ∃ s, tick SIZE RADIUS g mouse r = Ok s
       ∧ ((row, col), (row, col)) ∈ moves s
       ∧ (∀ dst, ((row, col), dst) ∈ moves s → dst = (row, col))
       ∧ cell (next_grid s) (row, col) = SAND)
  ∧ (∀ (RADIUS : Z) (R : Type) (H : Random R) (r : R),
       ∃ s, tick 2 RADIUS packed_grid no_paint r = Ok s
         ∧ next_grid s = packed_grid)
  ∧ (∀ (RADIUS : Z) (R : Type) (H : Random R) (n : nat) (r : R),
       ∃ r', ticks 2 RADIUS n packed_grid r = Ok (packed_grid, r')).
Proof.
  split_and!.
  - intros. by apply particle_rests_in_place.
  - intros RADIUS R H r.
    destruct (packed_grid_tick RADIUS r) as (s & Htick & Hnext & _). eauto.
  - intros. apply packed_grid_ticks.
Qed.

(** The general statement at the left particle of the packed grid. *)
Lemma blocked_particle_rests_witness :
  wf_grid 2 packed_grid
  ∧ (get_pressed0 no_paint = true → CELL_SIZE 2 ≠ 0)
  ∧ in_grid 2 (1, 0) ∧ cell packed_grid (1, 0) = SAND
  ∧ blocked 2 packed_grid (1 + 1, 0)
  ∧ blocked 2 packed_grid (1 + 1, 0 - 1)
  ∧ blocked 2 packed_grid (1 + 1, 0 + 1)
  ∧ ∃ s, tick 2 5 packed_grid no_paint east_tape = Ok s
      ∧ ((1, 0), (1, 0)) ∈ moves s
      ∧ (∀ dst, ((1, 0), dst) ∈ moves s → dst = (1, 0))
      ∧ cell (next_grid s) (1, 0) = SAND.
Proof.
  assert (wf_grid 2 packed_grid) as Hwf.
  { split; [reflexivity|repeat constructor]. }
  assert (get_pressed0 no_paint = true → CELL_SIZE 2 ≠ 0) as Hcs.
  { vm_compute. discriminate. }
  assert (in_grid 2 (1, 0)) as Hsrc.
  { unfold in_grid, in_range. simpl. lia. }
  assert (∀ c, blocked 2 packed_grid (1 + 1, c)) as Hout.
  { intros c. left. unfold in_grid, in_range. simpl. lia. }
  split_and!; [exact Hwf|exact Hcs|exact Hsrc|reflexivity
              |apply Hout|apply Hout|apply Hout|].
  exact (proj1 blocked_particle_rests 2 5 Tape _ packed_grid no_paint
           east_tape 1 0 Hwf Hcs Hsrc eq_refl (Hout _) (Hout _) (Hout _)).
Defined.

(** ** Frame, bounds and painting *)

Section Frame.
Variable SIZE : Z.
Variable RADIUS : Z.
Context {R : Type} `{Random R}.

(** C5: whatever the grid, the paint input and the random choices, the
    painted positions are candidates of the brush, the logged moves are
    destinations the rule computes for sand cells of the current grid, and
    every cell of the next grid that is neither painted nor such a
    destination is empty. *)
Theorem untouched_cells_are_empty (g : Grid) (mouse : Mouse) (r : R) :
  wf_grid SIZE g → (get_pressed0 mouse = true → CELL_SIZE SIZE ≠ 0) →
  ∃ s, tick SIZE RADIUS g mouse r = Ok s
    ∧ (∀ p, p ∈ painted s →
         get_pressed0 mouse = true ∧ p ∈ brush SIZE RADIUS mouse
         ∧ in_grid SIZE p)
    ∧ (∀ src dst, (src, dst) ∈ moves s →
         in_grid SIZE src ∧ cell g src = SAND
         ∧ ∃ dir, (dir = -1 ∨ dir = 1) ∧ dst = destination SIZE g src dir)
    ∧ ∀ p, in_grid SIZE p →
        p ∉ painted s → (∀ src, (src, p) ∉ moves s) →
        cell (next_grid s) p = EMPTY.
Proof.
  intros Hg Hcs.
  destruct (tick_ok SIZE RADIUS g mouse r Hg Hcs) as (acc & -> & _).
  eexists. split; [done|]. split_and!.
  - intros p Hp. by apply paint_painted in Hp.
  - intros src dst Hin. unfold outcome in Hin. cbn [moves] in Hin.
    apply project_moves in Hin as (Hsrc & Hsand & Hdst).
    by apply elem_of_scan in Hsrc.
  - intros p [Hp1 Hp2] Hpaint Hmove. unfold in_range in *.
    rewrite cell_outcome by lia.
    rewrite decide_False; [done|].
    intros [Hin|Hin]%elem_of_app; [done|].
    apply list_elem_of_fmap in Hin as ([src dst] & -> & Hin).
    by apply (Hmove src).
Qed.


Lemma handle_drag_no_cell_size (mouse : Mouse) (s : Tick R) :
  CELL_SIZE SIZE = 0 →
  handle_drag SIZE RADIUS mouse s = Raise ZeroDivisionError.
Proof.
  intros Hcs. unfold handle_drag, floordiv.
  destruct (get_pos mouse) as [mx my]. by rewrite Hcs.
Qed.

(** C6: on a [SIZE] by [SIZE] grid every position subscripted by
    [update_grid] (and by [handle_drag] inside it) has both indices in
    [0, SIZE-1], so neither IndexError nor a negative index counted from
    the end occurs; the only exception a tick can raise is the division by
    a zero cell size, before any cell is touched.  An index outside the
    range is rejected, not replaced by one inside it: the tick ends in the
    state [outcome] computes, and the positions it subscripts are, in
    program order, exactly the computed ones whose checks passed
    ([tick_trace]); only candidates of the brush lying in the grid are
    painted; a particle whose row + 1 is outside the grid stays in its
    cell, and any particle stays, falls straight, or moves to a diagonal
    cell that lies in the grid; nothing is written but the painted cells
    and these destinations. *)
Theorem accesses_within_bounds (g : Grid) (mouse : Mouse) (r : R) :
  wf_grid SIZE g →
  (∃ s, tick SIZE RADIUS g mouse r = Ok s
     ∧ Forall (in_grid SIZE) (accesses s)
     ∧ Forall (λ p, py_index (Z.to_nat SIZE) p.1 = Ok (Z.to_nat p.1)
                    ∧ py_index (Z.to_nat SIZE) p.2 = Ok (Z.to_nat p.2))
         (accesses s)
     ∧ s = outcome SIZE RADIUS g mouse r (tick_trace SIZE RADIUS g mouse r)
     ∧ (∀ p, p ∈ painted s → p ∈ brush SIZE RADIUS mouse ∧ in_grid SIZE p)
     ∧ (∀ src dst, (src, dst) ∈ moves s →
          in_grid SIZE src ∧ in_grid SIZE dst
          ∧ (¬ in_range SIZE (src.1 + 1) → dst = src)
          ∧ (dst = src ∨ dst = (src.1 + 1, src.2)
             ∨ dst = (src.1 + 1, src.2 - 1) ∨ dst = (src.1 + 1, src.2 + 1)))
     ∧ next_grid s
       = foldl (put SAND) (generate_grid SIZE) (painted s ++ (moves s).*2))
  ∨ (get_pressed0 mouse = true ∧ CELL_SIZE SIZE = 0
     ∧ tick SIZE RADIUS g mouse r = Raise ZeroDivisionError).
Proof.
  intros Hg.
  destruct (decide (get_pressed0 mouse = true ∧ CELL_SIZE SIZE = 0))
    as [[Hpressed Hcs]|Hfine].
  - right. split_and!; [done..|].
    unfold tick, update_grid. rewrite !bind_eq.
    change (negb (MOUSEBUTTONDOWN =? 0)) with true.
    cbn [set_next_grid]. cbv iota. rewrite Hpressed.
    by rewrite bind_eq, handle_drag_no_cell_size.
  - left.
    assert (get_pressed0 mouse = true → CELL_SIZE SIZE ≠ 0) as Hcs.
    { intros Hpressed Hcs. by apply Hfine. }
    destruct (tick_ok SIZE RADIUS g mouse r Hg Hcs) as (acc & Htick & Hacc).
    rewrite (tick_exact SIZE RADIUS g mouse r Hg Hcs) in Htick.
    injection Htick as Htrace. rewrite <- Htrace in Hacc. clear acc Htrace.
    rewrite (tick_exact SIZE RADIUS g mouse r Hg Hcs).
    eexists. split; [done|]. split_and!.
    + done.
    + cbn [outcome accesses]. eapply Forall_impl; [exact Hacc|].
      intros p [Hp1 Hp2]. unfold in_range in *.
      split; apply py_index_in_range; lia.
    + done.
    + intros p Hp. cbn [outcome painted] in Hp.
      by apply paint_painted in Hp as (_ & ? & ?).
    + intros src dst Hmv. cbn [outcome moves] in Hmv.
      apply project_moves in Hmv as (Hsrc & _ & dir & Hdir & ->).
      apply elem_of_scan in Hsrc.
      pose proof (destination_in_grid SIZE g src dir Hsrc) as Hdst.
      split_and!; [done|done| |].
      * intros Hrow. unfold destination, can_fall.
        destruct (within_rows SIZE (src.1 + 1)) eqn:Hbelow;
          [by apply within_rows_spec in Hbelow|].
        by rewrite andb_false_r.
      * unfold destination.
        destruct (can_fall SIZE g src); [by right; left|].
        destruct (_ && _); [|by left].
        destruct Hdir as [-> | ->]; [right; right; left|right; right; right];
          done.
    + done.
Qed.

(** C9: [handle_drag] raises nothing, writes sand exactly at the cells it
    logs as painted, and these are candidates of the brush lying in the
    grid; every other cell keeps its content, so a candidate with an index
    outside [0, SIZE-1] writes nothing, and when no candidate lies in the
    grid the grid and its sand count are unchanged. *)
Theorem out_of_range_paint_is_dropped (mouse : Mouse) (s : Tick R) :
  CELL_SIZE SIZE ≠ 0 → wf_grid SIZE (next_grid s) →
  ∃ s' ps acc,
    handle_drag SIZE RADIUS mouse s = Ok ((), s')
    ∧ painted s' = painted s ++ ps
    ∧ accesses s' = accesses s ++ acc ∧ Forall (in_grid SIZE) acc
    ∧ next_grid s' = foldl (put SAND) (next_grid s) ps
    ∧ (∀ p, p ∈ ps → p ∈ brush SIZE RADIUS mouse ∧ in_grid SIZE p)
    ∧ (∀ q, 0 ≤ q.1 → 0 ≤ q.2 → q ∉ ps →
         cell (next_grid s') q = cell (next_grid s) q)
    ∧ ((∀ p, p ∈ brush SIZE RADIUS mouse → ¬ in_grid SIZE p) →
       next_grid s' = next_grid s
       ∧ count_sand (next_grid s') = count_sand (next_grid s)).
Proof.
  intros Hcs Hn.
  destruct (handle_drag_ok SIZE RADIUS mouse s Hcs Hn) as (acc & -> & Hacc).
  cbv zeta.
  set (ps := (sprinkle SIZE (brush SIZE RADIUS mouse) (rng s)).1).
  assert (∀ p, p ∈ ps → p ∈ brush SIZE RADIUS mouse ∧ in_grid SIZE p)
    as Hps by (intros p; apply sprinkle_painted).
  eexists _, ps, acc. split; [done|].
  cbn [after painted accesses next_grid]. split_and!; try done.
  - intros q Hq1 Hq2 Hq.
    rewrite (cell_foldl_put SIZE); [by rewrite decide_False|done| |done..].
    apply Forall_forall. intros p Hp. by apply Hps.
  - intros Hout. assert (ps = []) as ->; [|done].
    destruct ps as [|p ps]; [done|].
    destruct (Hps p) as [Hp1 Hp2]; [apply list_elem_of_here|].
    by destruct (Hout p).
Qed.
End Frame.

(** ** Counting sand *)

Section Counting.
Variable SIZE : Z.

Lemma row_count_insert (row : list Z) (j : nat) (v : Z) :
  (length (filter (λ v, v = SAND) (<[j:=v]> row))
   ≤ S (length (filter (λ v, v = SAND) row)))%nat.
Proof.
  revert j. induction row as [|x row IH]; intros j; [destruct j; cbn; lia|].
  destruct j as [|j]; simpl; rewrite !filter_cons.
  - repeat case_decide; cbn [length]; lia.
  - specialize (IH j). repeat case_decide; cbn [length]; lia.
Qed.

Lemma count_sand_put (v : Z) (g : Grid) (p : Cell) :
  (count_sand (put v g p) ≤ S (count_sand g))%nat.
Proof.
  unfold count_sand, put, fmap, alter. generalize (Z.to_nat p.1) as i.
  induction g as [|row g IH]; intros i; [destruct i; cbn; lia|].
  destruct i as [|i]; simpl.
  - pose proof (row_count_insert row (Z.to_nat p.2) v). lia.
  - specialize (IH i). simpl in IH. lia.
Qed.

Lemma count_sand_foldl_put (ps : list Cell) (g : Grid) :
  (count_sand (foldl (put SAND) g ps) ≤ count_sand g + length ps)%nat.
Proof.
  revert g. induction ps as [|p ps IH]; intros g; cbn [foldl length]; [lia|].
  specialize (IH (put SAND g p)). pose proof (count_sand_put SAND g p). lia.
Qed.

Lemma count_sand_generate_grid : count_sand (generate_grid SIZE) = 0%nat.
Proof.
  rewrite generate_grid_eq. unfold count_sand.
  assert (∀ m : nat, filter (λ v : Z, v = SAND) (replicate m 0) = [])
    as Hrow.
  { induction m as [|m IHm]; [done|].
    cbn [replicate]. by rewrite filter_cons_False. }
  rewrite fmap_replicate, Hrow. cbn [length].
  induction (Z.to_nat SIZE) as [|k IH]; [done|]. cbn. apply IH.
Qed.

Lemma length_filter_row {A B} (P : A * B → Prop) `{∀ x, Decision (P x)}
    (a : A) (l2 : list B) :
  length (filter P (b ← l2; [(a, b)]))
  = length (filter (λ b, P (a, b)) l2).
Proof.
  induction l2 as [|b l2 IH]; [done|].
  change (b ← b :: l2; [(a, b)]) with ((a, b) :: (b ← l2; [(a, b)])).
  rewrite !filter_cons. case_decide; cbn [length]; by rewrite IH.
Qed.

Lemma length_filter_product {A B} (P : A * B → Prop) `{∀ x, Decision (P x)}
    (l1 : list A) (l2 : list B) :
  length (filter P (a ← l1; b ← l2; [(a, b)]))
  = sum_list ((λ a, length (filter (λ b, P (a, b)) l2)) <$> l1).
Proof.
  induction l1 as [|a l1 IH]; [done|].
  change (a ← a :: l1; b ← l2; [(a, b)])
    with ((b ← l2; [(a, b)]) ++ (a ← l1; b ← l2; [(a, b)])).
  rewrite filter_app, length_app, IH, length_filter_row. done.
Qed.

Lemma seqZ_of_length (n : Z) : seqZ 0 n = seqZ 0 (Z.of_nat (Z.to_nat n)).
Proof. unfold seqZ. by rewrite Nat2Z.id. Qed.

Lemma length_filter_indices (l : list Z) (Q : Z → Prop)
    `{∀ i, Decision (Q i)} :
  (∀ (i : nat) (v : Z), l !! i = Some v → Q (Z.of_nat i) ↔ v = SAND) →
  length (filter Q (seqZ 0 (Z.of_nat (length l))))
  = length (filter (λ v, v = SAND) l).
Proof.
  induction l as [|x l IH] using rev_ind; intros HQ; [done|].
  rewrite length_app. cbn [length]. rewrite Nat.add_1_r, seqZ_S.
  rewrite !filter_app, !length_app, IH.
  - f_equal. rewrite !filter_cons, !filter_nil.
    assert (Q (0 + Z.of_nat (length l)) ↔ x = SAND) as Hx.
    { apply HQ. by rewrite lookup_app_r, Nat.sub_diag by lia. }
    repeat case_decide; try done; tauto.
  - intros i v Hi. apply HQ. by apply lookup_app_l_Some.
Qed.

Lemma sum_list_indices {A} (l : list A) (F : Z → nat) (G : A → nat) :
  (∀ (i : nat) (x : A), l !! i = Some x → F (Z.of_nat i) = G x) →
  sum_list (F <$> seqZ 0 (Z.of_nat (length l))) = sum_list (G <$> l).
Proof.
  induction l as [|x l IH] using rev_ind; intros HF; [done|].
  rewrite length_app. cbn [length]. rewrite Nat.add_1_r, seqZ_S.
  rewrite !fmap_app, !sum_list_with_app, IH.
  - cbn. f_equal. f_equal. apply HF.
    by rewrite lookup_app_r, Nat.sub_diag by lia.
  - intros i v Hi. apply HF. by apply lookup_app_l_Some.
Qed.

(** On a well-formed grid the sand cells met by the scan are all the sand
    cells there are. *)
Lemma count_sand_scan (g : Grid) :
  wf_grid SIZE g →
  length (filter (λ p, cell g p = SAND) (scan SIZE)) = count_sand g.
Proof.
  intros [Hlen Hrows]. unfold scan, range, count_sand.
  rewrite length_filter_product.
  rewrite (seqZ_of_length SIZE), <- Hlen.
  apply sum_list_indices. intros i row Hrow.
  rewrite Forall_forall in Hrows.
  assert (length row = Z.to_nat SIZE) as Hrowlen.
  { apply Hrows. by eapply list_elem_of_lookup_2. }
  rewrite Hlen, <- Hrowlen.
  apply length_filter_indices. intros j v Hv.
  unfold cell. cbn [fst snd]. by rewrite !Nat2Z.id, Hrow; cbn; rewrite Hv.
Qed.

Lemma binary_put (g : Grid) (p : Cell) : binary g → binary (put SAND g p).
Proof.
  unfold binary, put. intros Hg.
  apply Forall_forall. intros row Hin.
  apply list_elem_of_lookup in Hin as [i Hi].
  rewrite Forall_forall in Hg.
  destruct (decide (i = Z.to_nat p.1)) as [->|Hne].
  - rewrite list_lookup_alter_eq in Hi.
    destruct (g !! Z.to_nat p.1) as [row0|] eqn:Hrow0; simplify_eq/=.
    assert (Forall (λ v, v = EMPTY ∨ v = SAND) row0) as Hrow.
    { apply Hg. by eapply list_elem_of_lookup_2. }
    apply Forall_insert; auto.
  - rewrite list_lookup_alter_ne in Hi by done.
    apply Hg. by eapply list_elem_of_lookup_2.
Qed.

Lemma binary_foldl_put (ps : list Cell) (g : Grid) :
  binary g → binary (foldl (put SAND) g ps).
Proof.
  revert g. induction ps as [|p ps IH]; intros g Hg; [done|].
  cbn [foldl]. by apply IH, binary_put.
Qed.

Lemma binary_generate_grid : binary (generate_grid SIZE).
Proof.
  rewrite generate_grid_eq. unfold binary.
  apply Forall_replicate, Forall_replicate. by left.
Qed.
End Counting.

(** The frame property on a painted 3 by 3 grid. *)
Lemma untouched_cells_are_empty_witness :
  wf_grid 3 stacked_grid
  ∧ (get_pressed0 corner_mouse = true → CELL_SIZE 3 ≠ 0)
  ∧ ∃ s, tick 3 5 stacked_grid corner_mouse east_tape = Ok s
      ∧ (∀ p, p ∈ painted s →
           get_pressed0 corner_mouse = true ∧ p ∈ brush 3 5 corner_mouse
           ∧ in_grid 3 p)
      ∧ (∀ src dst, (src, dst) ∈ moves s →
           in_grid 3 src ∧ cell stacked_grid src = SAND
           ∧ ∃ dir, (dir = -1 ∨ dir = 1)
                    ∧ dst = destination 3 stacked_grid src dir)
      ∧ ∀ p, in_grid 3 p →
          p ∉ painted s → (∀ src, (src, p) ∉ moves s) →
          cell (next_grid s) p = EMPTY.
Proof.
  assert (wf_grid 3 stacked_grid) as Hwf.
  { split; [reflexivity|repeat constructor]. }
  assert (get_pressed0 corner_mouse = true → CELL_SIZE 3 ≠ 0) as Hcs.
  { intros _. vm_compute. discriminate. }
  split; [exact Hwf|]. split; [exact Hcs|].
  exact (untouched_cells_are_empty 3 5 stacked_grid corner_mouse east_tape
           Hwf Hcs).
Defined.

(** The bounds property where every check fails: a particle in the bottom
    left corner, the direction drawn to the left, and the brush beyond the
    last row and column. *)
Lemma accesses_within_bounds_witness :
  wf_grid 3 floor_grid
  ∧ ∃ s, tick 3 5 floor_grid outside_mouse west_tape = Ok s
      ∧ Forall (in_grid 3) (accesses s)
      ∧ accesses s = [(0, 0); (0, 1); (0, 2); (1, 0); (1, 1); (1, 2);
                      (2, 0); (2, 0); (2, 1); (2, 2)]
      ∧ painted s = []
      ∧ moves s = [((2, 0), (2, 0))]
      ∧ next_grid s = floor_grid.
Proof.
  assert (wf_grid 3 floor_grid) as Hwf.
  { split; [reflexivity|repeat constructor]. }
  split; [exact Hwf|].
  destruct (accesses_within_bounds 3 5 floor_grid outside_mouse west_tape Hwf)
    as [(s & Htick & Hin & _ & Hs & _)|(_ & Hcs & _)].
  - exists s. split; [exact Htick|]. split; [exact Hin|].
    rewrite Hs. vm_compute. repeat split.
  - vm_compute in Hcs. discriminate Hcs.
Defined.

(** Painting with every candidate outside a 3 by 3 grid. *)
Lemma out_of_range_paint_is_dropped_witness :
  CELL_SIZE 3 ≠ 0 ∧ wf_grid 3 (next_grid fresh_tick)
  ∧ (∀ p, p ∈ brush 3 5 outside_mouse → ¬ in_grid 3 p)
  ∧ ∃ s', handle_drag 3 5 outside_mouse fresh_tick = Ok ((), s')
      ∧ painted s' = [] ∧ next_grid s' = generate_grid 3.
Proof.
  assert (CELL_SIZE 3 ≠ 0) as Hcs by (vm_compute; discriminate).
  assert (wf_grid 3 (next_grid fresh_tick)) as Hwf.
  { split; [reflexivity|repeat constructor]. }
  assert (∀ p, p ∈ brush 3 5 outside_mouse → ¬ in_grid 3 p) as Hout.
  { intros p Hp [Hp1 Hp2]. unfold in_range in *.
    change (brush 3 5 outside_mouse) with [(3, 3); (4, 3); (3, 4); (4, 4)] in Hp.
    repeat (apply elem_of_cons in Hp as [->|Hp]; [simpl in *; lia|]).
    by apply elem_of_nil in Hp. }
  split_and!; [exact Hcs|exact Hwf|exact Hout|].
  destruct (out_of_range_paint_is_dropped 3 5 outside_mouse fresh_tick
              Hcs Hwf)
    as (s' & ps & acc & Hrun & Hpainted & _ & _ & _ & Hps & _ & Hsame).
  exists s'. split; [exact Hrun|].
  destruct (Hsame Hout) as [Hnext _]. split; [|exact Hnext].
  destruct ps as [|p ps]; [exact Hpainted|].
  destruct (Hps p (list_elem_of_here p ps)) as [Hin Hgrid].
  destruct (Hout p Hin Hgrid).
Defined.

(** ** Reset *)

Lemma grid_handle_event (SIZE : Z) (self : App) (event : Event) (busy : bool) :
  grid (handle_event SIZE self event busy)
  = if is_reset event then generate_grid SIZE else grid self.
Proof.
  destruct event as [|key|]; cbn [handle_event is_reset]; try done.
  destruct ((key =? K_r) || (key =? K_c)); [done|].
  by destruct (key =? K_q).
Qed.

Lemma grid_handle_events (SIZE : Z) (events : list (Event * bool)) (self : App) :
  grid (handle_events SIZE self events)
  = if existsb (λ ev, is_reset ev.1) events then generate_grid SIZE
    else grid self.
Proof.
  unfold handle_events. revert self.
  induction events as [|[event busy] events IH]; intros self; [done|].
  cbn [foldl existsb fst snd]. rewrite IH, grid_handle_event.
  destruct (is_reset event); cbn [orb]; [|done].
  by destruct (existsb _ events).
Qed.

(** C7: whatever the application state, handling a key-down event for
    [r] or [c] replaces the grid by a freshly generated one, [SIZE] by
    [SIZE] with every cell empty and no sand at all, and plays the click
    (after stopping the mixer if it is busy); and a whole batch of events
    that contains such a key leaves exactly that grid. *)
Theorem reset_clears_grid (SIZE : Z) (self : App) (busy : bool) :
  let after_r := handle_event SIZE self (KEYDOWN K_r) busy in
  let after_c := handle_event SIZE self (KEYDOWN K_c) busy in
  grid after_r = generate_grid SIZE
  ∧ grid after_c = generate_grid SIZE
  ∧ wf_grid SIZE (generate_grid SIZE)
  ∧ (∀ p, cell (generate_grid SIZE) p = EMPTY)
  ∧ Forall (Forall (λ v, v = EMPTY)) (generate_grid SIZE)
  ∧ count_sand (generate_grid SIZE) = 0%nat
  ∧ audio after_r = audio self ++ (if busy then [MixerStop] else [])
                    ++ [ClickPlay]
  ∧ audio after_c = audio after_r
  ∧ running after_r = running self ∧ running after_c = running self
  ∧ ∀ events,
      existsb (λ ev, is_reset ev.1) events = true →
      grid (handle_events SIZE self events) = generate_grid SIZE.
Proof.
  cbv zeta. split_and!; try done.
  - apply wf_generate_grid.
  - apply cell_generate_grid.
  - rewrite generate_grid_eq. by apply Forall_replicate, Forall_replicate.
  - apply count_sand_generate_grid.
  - intros events Hreset. by rewrite grid_handle_events, Hreset.
Qed.

(** ** Conservation *)

Lemma tick_count_le (SIZE RADIUS : Z) {R : Type} `{Random R}
    (g : Grid) (r : R) :
  wf_grid SIZE g →
  ∃ s, tick SIZE RADIUS g no_paint r = Ok s
    ∧ (count_sand (next_grid s) ≤ count_sand g)%nat.
Proof.
  intros Hg.
  destruct (tick_ok SIZE RADIUS g no_paint r Hg) as (acc & -> & _); [done|].
  eexists. split; [done|].
  unfold outcome. rewrite paint_no_paint. cbn [next_grid fst snd app].
  pose proof (count_sand_foldl_put
                (project SIZE g (scan SIZE) r).1.*2 (generate_grid SIZE)) as Hle.
  rewrite count_sand_generate_grid, length_fmap in Hle.
  rewrite <- (count_sand_scan SIZE g Hg), <- (project_sources SIZE g _ r).
  rewrite length_fmap. exact Hle.
Qed.

Lemma tick_keeps_shape (SIZE RADIUS : Z) {R : Type} `{Random R}
    (g : Grid) (mouse : Mouse) (r : R) :
  wf_grid SIZE g → (get_pressed0 mouse = true → CELL_SIZE SIZE ≠ 0) →
  ∃ s, tick SIZE RADIUS g mouse r = Ok s
    ∧ wf_grid SIZE (next_grid s) ∧ binary (next_grid s).
Proof.
  intros Hg Hcs.
  destruct (tick_ok SIZE RADIUS g mouse r Hg Hcs) as (acc & -> & _).
  eexists. split; [done|]. split; [apply wf_outcome|].
  apply binary_foldl_put, binary_generate_grid.
Qed.

(** C10: one tick without paint input never raises the number of sand
    cells of a [SIZE] by [SIZE] grid, whatever the random choices; and the
    grid is [SIZE] by [SIZE] with cells 0 or 1 when [generate_grid] makes
    it (at start-up too), after a tick with any paint input, and after any
    handled event (a reset included). *)
Theorem sand_count_never_grows :
  (∀ (SIZE RADIUS : Z) (R : Type) (H : Random R) (g : Grid) (r : R),
     wf_grid SIZE g →
     ∃ s, tick SIZE RADIUS g no_paint r = Ok s
       ∧ (count_sand (next_grid s) ≤ count_sand g)%nat)
  ∧ (∀ SIZE : Z, wf_grid SIZE (generate_grid SIZE)
                 ∧ binary (generate_grid SIZE)
                 ∧ grid (init SIZE) = generate_grid SIZE)
  ∧ (∀ (SIZE RADIUS : Z) (R : Type) (H : Random R)
       (g : Grid) (mouse : Mouse) (r : R),
       wf_grid SIZE g → (get_pressed0 mouse = true → CELL_SIZE SIZE ≠ 0) →
       ∃ s, tick SIZE RADIUS g mouse r = Ok s
         ∧ wf_grid SIZE (next_grid s) ∧ binary (next_grid s))
  ∧ (∀ (SIZE : Z) (self : App) (event : Event) (busy : bool),
       wf_grid SIZE (grid self) → binary (grid self) →
       wf_grid SIZE (grid (handle_event SIZE self event busy))
       ∧ binary (grid (handle_event SIZE self event busy))).
Proof.
  split_and!.
  - intros. by apply tick_count_le.
  - intros SIZE.
    split_and!; [apply wf_generate_grid|apply binary_generate_grid|done].
  - intros. by apply tick_keeps_shape.
  - intros SIZE self event busy Hwf Hbin. rewrite grid_handle_event.
    destruct (is_reset event); [|done].
    split; [apply wf_generate_grid|apply binary_generate_grid].
Qed.

(** On the crowded grid two particles merge: three sand cells become two. *)
Lemma sand_count_never_grows_witness :
  wf_grid 2 crowded_grid
  ∧ ∃ s, tick 2 5 crowded_grid no_paint east_tape = Ok s
      ∧ (count_sand (next_grid s) ≤ count_sand crowded_grid)%nat.
Proof.
  assert (wf_grid 2 crowded_grid) as Hwf.
  { split; [reflexivity|repeat constructor]. }
  split; [exact Hwf|].
  exact (proj1 sand_count_never_grows 2 5 Tape _ crowded_grid east_tape Hwf).
Defined.

(** ** The catch-up loop *)

Section Scheduler.
Context {W : Type}.
Variable update : W → W.

(** Whatever the arithmetic, the loop stops only when the accumulated time
    is no longer at least one tick. *)
Lemma catch_up_exit {T : Type} `{TimeArith T} (fuel : nat) (delta : T)
    (f f' : Frame T W) :
  catch_up fuel delta update f = Some f' →
  time_ge (elapsed_time f') delta = false
  ∧ (ticks_run f ≤ ticks_run f')%nat.
Proof.
  revert f. induction fuel as [|fuel IH]; intros f; cbn [catch_up].
  - destruct (time_ge (elapsed_time f) delta) eqn:Hge; [done|].
    intros [= <-]. auto.
  - destruct (time_ge (elapsed_time f) delta) eqn:Hge.
    + intros Hrun. apply IH in Hrun as [Hexit Hle].
      cbn [ticks_run] in Hle. split; [done|lia].
    + intros [= <-]. auto.
Qed.

Lemma catch_up_exact_steps (delta : Q) (n : nat) :
  ∀ (fuel : nat) (f : Frame Q W),
    (n < fuel)%nat → (0 < delta)%Q →
    (inject_Z (Z.of_nat n) * delta <= elapsed_time f)%Q →
    (elapsed_time f < inject_Z (Z.of_nat n + 1) * delta)%Q →
    ∃ f', catch_up fuel delta update f = Some f'
      ∧ (elapsed_time f' == elapsed_time f - inject_Z (Z.of_nat n) * delta)%Q
      ∧ (last_update_time f'
         == last_update_time f + inject_Z (Z.of_nat n) * delta)%Q
      ∧ sim f' = Nat.iter n update (sim f)
      ∧ ticks_run f' = (ticks_run f + n)%nat.
Proof.
  induction n as [|n IH]; intros fuel f Hfuel Hdelta Hlo Hhi.
  - destruct fuel as [|fuel]; [lia|]. cbn [catch_up time_ge exact_time].
    assert (Qle_bool delta (elapsed_time f) = false) as ->.
    { apply not_true_is_false. rewrite Qle_bool_iff.
      change (inject_Z (Z.of_nat 0 + 1)) with 1%Q in Hhi. lra. }
    exists f. split; [done|]. cbn. split_and!; try ring; [done|lia].
  - destruct fuel as [|fuel]; [lia|]. cbn [catch_up time_ge exact_time].
    assert (0 <= inject_Z (Z.of_nat n))%Q as Hn.
    { change 0%Q with (inject_Z 0). rewrite <- Zle_Qle. lia. }
    assert (inject_Z (Z.of_nat (S n)) = inject_Z (Z.of_nat n) + 1)%Q as Hsucc.
    { rewrite Nat2Z.inj_succ. unfold Z.succ. by rewrite inject_Z_plus. }
    rewrite inject_Z_plus in Hhi. change (inject_Z 1) with 1%Q in Hhi.
    rewrite Hsucc in *.
    specialize (IH fuel). rewrite inject_Z_plus in IH.
    change (inject_Z 1) with 1%Q in IH.
    remember (inject_Z (Z.of_nat n)) as a eqn:Ea. clear Ea Hsucc.
    assert (0 <= a * delta)%Q as Hnd by (apply Qmult_le_0_compat; lra).
    assert (Qle_bool delta (elapsed_time f) = true) as ->.
    { apply Qle_bool_iff. lra. }
    edestruct IH as (f' & Hrun & Hel & Hlast & Hsim & Hticks);
      [| |..|exists f'; split; [exact Hrun|]].
    + lia.
    + done.
    + cbn [elapsed_time time_sub exact_time]. lra.
    + cbn [elapsed_time time_sub exact_time]. lra.
    + cbn [elapsed_time last_update_time sim ticks_run
             time_sub time_add exact_time] in *.
      split_and!.
      * lra.
      * lra.
      * rewrite Hsim. cbn [Nat.iter nat_rect]. apply Nat.iter_swap.
      * lia.
Qed.

Lemma floor_bounds (e delta : Q) :
  (0 <= e)%Q → (0 < delta)%Q →
  0 ≤ Qfloor (e / delta)
  ∧ (inject_Z (Qfloor (e / delta)) * delta <= e)%Q
  ∧ (e < inject_Z (Qfloor (e / delta) + 1) * delta)%Q.
Proof.
  intros He Hdelta.
  assert (e == e / delta * delta)%Q as Heq by (field; lra).
  pose proof (Qfloor_le (e / delta)) as Hlo.
  pose proof (Qlt_floor (e / delta)) as Hhi.
  split_and!.
  - change 0 with (Qfloor 0). apply Qfloor_resp_le.
    apply Qle_shift_div_l; lra.
  - rewrite Heq at 2. apply Qmult_le_compat_r; lra.
  - rewrite Heq at 1. apply Qmult_lt_compat_r; lra.
Qed.

(** C8 (as amended): with elapsed time and tick duration taken as exact
    numbers, the loop started with accumulated time E >= 0 and tick
    duration D > 0 terminates (any fuel above floor(E/D) is enough) after
    exactly floor(E/D) calls of [update_grid], with remaining time
    E - floor(E/D) * D, which lies in [0, D); and with the floats the
    program computes in, whenever the loop exits the remaining time is not
    >= the tick duration. *)
Theorem catch_up_runs_floor_ticks (delta : Q) (fuel : nat) (f : Frame Q W) :
  (0 <= elapsed_time f)%Q → (0 < delta)%Q →
  (Z.to_nat (Qfloor (elapsed_time f / delta)) < fuel)%nat →
  (∃ f', catch_up fuel delta update f = Some f'
     ∧ Z.of_nat (ticks_run f')
       = Z.of_nat (ticks_run f) + Qfloor (elapsed_time f / delta)
     ∧ sim f'
       = Nat.iter (Z.to_nat (Qfloor (elapsed_time f / delta))) update (sim f)
     ∧ (elapsed_time f'
        == elapsed_time f
           - inject_Z (Qfloor (elapsed_time f / delta)) * delta)%Q
     ∧ (last_update_time f'
        == last_update_time f
           + inject_Z (Qfloor (elapsed_time f / delta)) * delta)%Q
     ∧ (0 <= elapsed_time f')%Q ∧ (elapsed_time f' < delta)%Q)
  ∧ (∀ (n : nat) (g g' : Frame float W),
       catch_up n float_delta_time update g = Some g' →
       PrimFloat.leb float_delta_time (elapsed_time g') = false
       ∧ (ticks_run g ≤ ticks_run g')%nat).
Proof.
  intros He Hdelta Hfuel. split;
    [|intros n g g' Hrun; exact (catch_up_exit n float_delta_time g g' Hrun)].
  destruct (floor_bounds (elapsed_time f) delta He Hdelta)
    as (Hn & Hlo & Hhi).
  set (k := Qfloor (elapsed_time f / delta)) in *.
  rewrite <- (Z2Nat.id k Hn) in Hlo, Hhi.
  destruct (catch_up_exact_steps delta (Z.to_nat k) fuel f Hfuel Hdelta
              Hlo Hhi) as (f' & Hrun & Hel & Hlast & Hsim & Hticks).
  rewrite (Z2Nat.id k Hn) in Hel, Hlast, Hlo, Hhi.
  exists f'. split_and!; try done.
  - rewrite Hticks. lia.
  - rewrite Hel. lra.
  - rewrite Hel. rewrite inject_Z_plus in Hhi.
    assert ((inject_Z k + inject_Z 1) * delta == inject_Z k * delta + delta)%Q
      as Hx by ring.
    rewrite Hx in Hhi. lra.
Qed.
End Scheduler.

(** The exact-arithmetic statement at E = 3/2 and a tick of 1/30: 45 ticks. *)
Lemma catch_up_runs_floor_ticks_witness :
  let f := {| elapsed_time := 3 # 2; last_update_time := 0%Q;
              sim := 0%nat; ticks_run := 0 |} in
  (0 <= elapsed_time f)%Q ∧ (0 < exact_delta_time)%Q
  ∧ (Z.to_nat (Qfloor (elapsed_time f / exact_delta_time)) < 100)%nat
  ∧ ∃ f', catch_up 100 exact_delta_time S f = Some f'
      ∧ ticks_run f' = 45%nat ∧ sim f' = 45%nat
      ∧ (elapsed_time f' == 0)%Q.
Proof.
  intros f.
  assert (0 <= elapsed_time f)%Q as He by (unfold Qle; simpl; lia).
  assert (0 < exact_delta_time)%Q as Hdelta by (unfold Qlt; simpl; lia).
  assert (Z.to_nat (Qfloor (elapsed_time f / exact_delta_time)) < 100)%nat
    as Hfuel by (vm_compute; lia).
  split_and!; [exact He|exact Hdelta|exact Hfuel|].
  destruct (catch_up_runs_floor_ticks S exact_delta_time 100 f
              He Hdelta Hfuel)
    as [(f' & Hrun & Hticks & Hsim & Hel & _) _].
  exists f'. split; [exact Hrun|].
  change (Qfloor (elapsed_time f / exact_delta_time)) with 45 in *.
  cbn [ticks_run f] in Hticks.
  split_and!.
  - lia.
  - exact Hsim.
  - rewrite Hel. reflexivity.
Defined.

Lemma catch_up_float_stalls {W : Type} (update : W → W) (fuel : nat) :
  ∀ (last : float) (w : W) (k : nat),
    catch_up fuel float_delta_time update
      {| elapsed_time := 1e17%float; last_update_time := last;
         sim := w; ticks_run := k |} = None.
Proof.
  induction fuel as [|fuel IH]; intros last w k; [done|].
  cbn [catch_up elapsed_time last_update_time sim ticks_run].
  change (time_ge 1e17%float float_delta_time) with true. cbv iota.
  change (time_sub 1e17%float float_delta_time) with 1e17%float.
  apply IH.
Qed.

(** C8 (as stated) fails on the floats the program computes in: with
    1.5 s accumulated and a tick of 1/30 s the loop calls [update_grid] 44
    times although floor(E/D) is 45 (the remainder left is just below one
    tick); and with 1e17 s accumulated, subtracting one tick gives back the
    same float, so the loop never exits. *)
Lemma catch_up_float_counterexample :
  (∃ f', catch_up 100 float_delta_time S
           {| elapsed_time := 1.5%float; last_update_time := 0%float;
              sim := 0%nat; ticks_run := 0 |} = Some f'
     ∧ ticks_run f' = 44%nat ∧ sim f' = 44%nat
     ∧ PrimFloat.ltb (elapsed_time f') float_delta_time = true)
  ∧ (∃ e d, float_value 1.5%float = Some e
            ∧ float_value float_delta_time = Some d
            ∧ Qfloor (e / d) = 45)
  ∧ (∀ fuel : nat,
       catch_up fuel float_delta_time S
         {| elapsed_time := 1e17%float; last_update_time := 0%float;
            sim := 0%nat; ticks_run := 0 |} = None).
Proof.
  split_and!.
  - eexists. split; [vm_compute; reflexivity|].
    cbn [ticks_run sim elapsed_time]. split_and!; [done|done|].
    vm_compute. reflexivity.
  - eexists _, _. split; [vm_compute; reflexivity|].
    split; [vm_compute; reflexivity|]. vm_compute. reflexivity.
  - intros fuel. apply catch_up_float_stalls.
Qed.

(** ** Colours *)

Lemma invert_three (c0 c1 c2 : Z) (rest : list Z) :
  Color.invert (c0 :: c1 :: c2 :: rest) = Ok [255 - c0; 255 - c1; 255 - c2].
Proof.
  unfold Color.invert.
  rewrite (getitem_in_range _ 0 c0), (getitem_in_range _ 1 c1),
    (getitem_in_range _ 2 c2) by (done || lia).
  done.
Qed.

(** X1: inverting a colour twice gives back its three components (and
    drops any further component the sequence had). *)
Theorem invert_involution (c0 c1 c2 : Z) (rest : list Z) :
  (Color.invert (c0 :: c1 :: c2 :: rest) ≫= Color.invert) = Ok [c0; c1; c2].
Proof.
  rewrite invert_three. cbn [mbind Result_bind]. rewrite invert_three.
  do 2 f_equal; [|f_equal; [|f_equal]]; lia.
Qed.

(** X2: on a colour with at least three components, each between 0 and
    255, [invert] succeeds and its three components are between 0 and 255
    again. *)
Theorem invert_valid (color : list Z) :
  (3 ≤ length color)%nat → Forall (λ c, 0 ≤ c ≤ 255) color →
  ∃ out, Color.invert color = Ok out ∧ length out = 3%nat
         ∧ Forall (λ c, 0 ≤ c ≤ 255) out.
Proof.
  intros Hlen Hvalid.
  destruct color as [|c0 [|c1 [|c2 rest]]]; cbn in Hlen; try lia.
  rewrite invert_three. eexists. split; [done|]. split; [done|].
  apply Forall_cons in Hvalid as [H0 Hvalid].
  apply Forall_cons in Hvalid as [H1 Hvalid].
  apply Forall_cons in Hvalid as [H2 _].
  repeat (apply List.Forall_cons; [lia|]). apply List.Forall_nil.
Qed.

Lemma invert_valid_witness :
  (3 ≤ length Color.ORANGE)%nat ∧ Forall (λ c, 0 ≤ c ≤ 255) Color.ORANGE
  ∧ ∃ out, Color.invert Color.ORANGE = Ok out ∧ length out = 3%nat
           ∧ Forall (λ c, 0 ≤ c ≤ 255) out.
Proof.
  assert (3 ≤ length Color.ORANGE)%nat as Hlen by (simpl; lia).
  assert (Forall (λ c, 0 ≤ c ≤ 255) Color.ORANGE) as Hvalid.
  { repeat (apply List.Forall_cons; [lia|]). apply List.Forall_nil. }
  split; [exact Hlen|]. split; [exact Hvalid|].
  exact (invert_valid Color.ORANGE Hlen Hvalid).
Defined.

(** X3: [invert] raises IndexError exactly on sequences with fewer than
    three components, and raises nothing else. *)
Theorem invert_index_error (color : list Z) :
  (Color.invert color = Raise IndexError ↔ (length color < 3)%nat)
  ∧ Color.invert color ≠ Raise ZeroDivisionError.
Proof.
  destruct color as [|c0 [|c1 [|c2 rest]]].
  - split; [|done]. split; [cbn; lia|done].
  - split; [|done]. split; [cbn; lia|done].
  - split; [|done]. split; [cbn; lia|done].
  - rewrite invert_three. split; [|done]. split; [done|cbn; lia].
Qed.

(** ** Drawing *)

Section Drawing.
Variable SIZE : Z.

Lemma for_each_app {A S} (l1 l2 : list A) (body : A → S → Result S) (s : S) :
  for_each (l1 ++ l2) body s = for_each l1 body s ≫= for_each l2 body.
Proof.
  revert s. induction l1 as [|x l1 IH]; intros s; [done|].
  cbn [for_each app]. destruct (body x s) as [s'|e]; [|done].
  cbn [mbind Result_bind]. apply IH.
Qed.

Lemma for_each_row {A B C S} (f : A → B → C) (a : A) (l2 : list B)
    (body : C → S → Result S) (s : S) :
  for_each (b ← l2; [f a b]) body s = for_each l2 (λ b, body (f a b)) s.
Proof.
  revert s. induction l2 as [|b l2 IH]; intros s; [done|].
  change (b ← b :: l2; [f a b]) with (f a b :: (b ← l2; [f a b])).
  cbn [for_each]. destruct (body (f a b) s) as [s'|e]; [|done].
  cbn [mbind Result_bind]. apply IH.
Qed.

Lemma for_each_product {A B C S} (f : A → B → C) (l1 : list A) (l2 : list B)
    (body : C → S → Result S) (s : S) :
  for_each l1 (λ a s, for_each l2 (λ b, body (f a b)) s) s
  = for_each (a ← l1; b ← l2; [f a b]) body s.
Proof.
  revert s. induction l1 as [|a l1 IH]; intros s; [done|].
  change (a ← a :: l1; b ← l2; [f a b])
    with ((b ← l2; [f a b]) ++ (a ← l1; b ← l2; [f a b])).
  rewrite for_each_app, for_each_row. cbn [for_each].
  destruct (for_each l2 _ s) as [s'|e]; [|done].
  cbn [mbind Result_bind]. apply IH.
Qed.

Lemma for_each_append {A B} (l : list A) (body : A → list B → Result (list B))
    (call : A → B) (s : list B) :
  (∀ x s, x ∈ l → body x s = Ok (s ++ [call x])) →
  for_each l body s = Ok (s ++ (call <$> l)).
Proof.
  revert s. induction l as [|x l IH]; intros s Hbody.
  - cbn. by rewrite app_nil_r.
  - cbn [for_each]. rewrite Hbody by apply list_elem_of_here.
    cbn [mbind Result_bind]. rewrite IH.
    + by rewrite fmap_cons, <- app_assoc.
    + intros y s' Hy. apply Hbody. by apply list_elem_of_further.
Qed.

Lemma draw_grid_eq (g : Grid) (screen : list DrawCall) :
  wf_grid SIZE g →
  draw_grid SIZE g screen = Ok (screen ++ (cell_call SIZE g <$> scan SIZE)).
Proof.
  intros Hg. unfold draw_grid.
  etrans; [exact (for_each_product pair (range SIZE) (range SIZE)
    (λ p screen,
       v ← (r ← getitem g p.1; getitem r p.2);
       Ok (screen ++ [Rect (if v =? 1 then Color.WHITE else Color.BLACK)
                           (p.2 * CELL_SIZE SIZE, p.1 * CELL_SIZE SIZE,
                            CELL_SIZE SIZE, CELL_SIZE SIZE)])) screen)|].
  apply for_each_append. intros p s Hp.
  apply elem_of_scan in Hp.
  destruct (wf_grid_cell SIZE g p Hg Hp) as (row & Hrow & Hlen & Hv).
  destruct Hp as [Hp1 Hp2]. unfold in_range in *.
  rewrite (getitem_in_range g p.1 row) by (done || lia).
  cbn [mbind Result_bind].
  rewrite (getitem_in_range row p.2 (cell g p)) by (done || lia).
  done.
Qed.

Lemma length_scan : length (scan SIZE) = (Z.to_nat SIZE * Z.to_nat SIZE)%nat.
Proof.
  unfold scan, range.
  assert (∀ (l1 l2 : list Z),
    length (a ← l1; b ← l2; [(a, b)]) = (length l1 * length l2)%nat) as Hlen.
  { intros l1 l2. induction l1 as [|a l1 IH]; [done|].
    change (a ← a :: l1; b ← l2; [(a, b)])
      with ((b ← l2; [(a, b)]) ++ (a ← l1; b ← l2; [(a, b)])).
    rewrite length_app, IH.
    assert (length (b ← l2; [(a, b)]) = length l2) as ->.
    { clear. induction l2 as [|b l2 IH]; [done|]. cbn. by rewrite <- IH. }
    cbn [length]. lia. }
  by rewrite Hlen, length_seqZ.
Qed.

Lemma cell_rect_inside (p : Cell) :
  in_grid SIZE p → inside_window (cell_rect SIZE p).
Proof.
  intros [Hp1 Hp2]. unfold in_range in *.
  unfold cell_rect, inside_window, CELL_SIZE, WIDTH, HEIGHT.
  rewrite Z.min_id.
  assert (0 < SIZE) as Hsize by lia.
  pose proof (Z.mul_div_le 800 SIZE Hsize) as Hfit.
  assert (0 ≤ 800 `div` SIZE) as Hcs by (apply Z.div_pos; lia).
  split_and!; nia.
Qed.

Lemma cell_rect_disjoint (p q : Cell) :
  in_grid SIZE p → in_grid SIZE q → p ≠ q →
  ¬ overlap (cell_rect SIZE p) (cell_rect SIZE q).
Proof.
  intros [Hp1 Hp2] [Hq1 Hq2] Hne. unfold in_range in *.
  unfold cell_rect, overlap.
  assert (0 ≤ CELL_SIZE SIZE) as Hcs.
  { unfold CELL_SIZE, WIDTH, HEIGHT. rewrite Z.min_id.
    apply Z.div_pos; lia. }
  destruct p as [p1 p2], q as [q1 q2]. cbn [fst snd] in *.
  intros (H1 & H2 & H3 & H4).
  assert (p1 = q1) by nia. assert (p2 = q2) by nia. congruence.
Qed.

(** X4: on a [SIZE] by [SIZE] grid [draw_grid] raises nothing and draws
    one rectangle per cell, row by row, [SIZE] * [SIZE] in all, white for a
    cell holding 1 and black otherwise, each lying inside the 800 by 800
    window. *)
Theorem draw_grid_draws_every_cell (g : Grid) (screen : list DrawCall) :
  wf_grid SIZE g →
  ∃ calls, draw_grid SIZE g screen = Ok (screen ++ calls)
    ∧ calls = cell_call SIZE g <$> scan SIZE
    ∧ length calls = (Z.to_nat SIZE * Z.to_nat SIZE)%nat
    ∧ Forall (λ call, ∃ color rect, call = Rect color rect
                        ∧ (color = Color.WHITE ∨ color = Color.BLACK)
                        ∧ inside_window rect) calls.
Proof.
  intros Hg. eexists. split; [by apply draw_grid_eq|].
  split; [done|]. split; [by rewrite length_fmap, length_scan|].
  apply Forall_fmap, Forall_forall. intros p Hp.
  apply elem_of_scan in Hp. unfold cell_call. cbn.
  eexists _, _. split; [done|].
  split; [destruct (cell g p =? 1); auto|by apply cell_rect_inside].
Qed.

(** X5: the rectangles [draw_grid] draws for two different cells never
    share a pixel. *)
Theorem draw_grid_rectangles_disjoint (g : Grid) (calls : list DrawCall)
    (i j : nat) (c1 c2 : list Z) (r1 r2 : Z * Z * Z * Z) :
  wf_grid SIZE g → draw_grid SIZE g [] = Ok calls →
  i ≠ j → calls !! i = Some (Rect c1 r1) → calls !! j = Some (Rect c2 r2) →
  ¬ overlap r1 r2.
Proof.
  intros Hg Hdraw Hij Hi Hj.
  rewrite draw_grid_eq in Hdraw by done. cbn [app] in Hdraw.
  injection Hdraw as <-.
  rewrite list_lookup_fmap in Hi, Hj.
  destruct (scan SIZE !! i) as [p|] eqn:Hp; [|done].
  destruct (scan SIZE !! j) as [q|] eqn:Hq; [|done].
  cbn in Hi, Hj. injection Hi as _ <-. injection Hj as _ <-.
  apply cell_rect_disjoint.
  - apply elem_of_scan. by eapply list_elem_of_lookup_2.
  - apply elem_of_scan. by eapply list_elem_of_lookup_2.
  - intros ->. apply Hij.
    by eapply NoDup_lookup; [apply NoDup_scan|..].
Qed.
End Drawing.

Section Pictures.
Variable SIZE : Z.

Lemma grid_ext (g1 g2 : Grid) :
  wf_grid SIZE g1 → wf_grid SIZE g2 →
  (∀ p, in_grid SIZE p → cell g1 p = cell g2 p) → g1 = g2.
Proof.
  intros [Hlen1 Hrows1] [Hlen2 Hrows2] Hcells.
  rewrite Forall_forall in Hrows1, Hrows2.
  apply list_eq. intros i.
  destruct (decide (i < Z.to_nat SIZE)%nat) as [Hi|Hi].
  - destruct (lookup_lt_is_Some_2 g1 i) as [row1 Hrow1]; [lia|].
    destruct (lookup_lt_is_Some_2 g2 i) as [row2 Hrow2]; [lia|].
    rewrite Hrow1, Hrow2. f_equal.
    assert (length row1 = Z.to_nat SIZE) as Hl1
      by (apply Hrows1; by eapply list_elem_of_lookup_2).
    assert (length row2 = Z.to_nat SIZE) as Hl2
      by (apply Hrows2; by eapply list_elem_of_lookup_2).
    apply list_eq. intros j.
    destruct (decide (j < Z.to_nat SIZE)%nat) as [Hj|Hj].
    + destruct (lookup_lt_is_Some_2 row1 j) as [v1 Hv1]; [lia|].
      destruct (lookup_lt_is_Some_2 row2 j) as [v2 Hv2]; [lia|].
      rewrite Hv1, Hv2. f_equal.
      specialize (Hcells (Z.of_nat i, Z.of_nat j)).
      unfold cell in Hcells. cbn [fst snd] in Hcells.
      rewrite !Nat2Z.id, Hrow1, Hrow2 in Hcells. cbn in Hcells.
      rewrite Hv1, Hv2 in Hcells. apply Hcells.
      split; unfold in_range; cbn; lia.
    + rewrite !lookup_ge_None_2 by lia. done.
  - rewrite !lookup_ge_None_2 by lia. done.
Qed.

Lemma binary_cell (g : Grid) (p : Cell) :
  binary g → cell g p = EMPTY ∨ cell g p = SAND.
Proof.
  intros Hbin. unfold cell, binary in *. rewrite Forall_forall in Hbin.
  destruct (g !! Z.to_nat p.1) as [row|] eqn:Hrow; [|by left]. cbn.
  destruct (row !! Z.to_nat p.2) as [v|] eqn:Hv; [|by left]. cbn.
  assert (Forall (λ v, v = EMPTY ∨ v = SAND) row) as Hr
    by (apply Hbin; by eapply list_elem_of_lookup_2).
  rewrite Forall_forall in Hr. apply Hr. by eapply list_elem_of_lookup_2.
Qed.

(** X6: the picture determines the grid: two [SIZE] by [SIZE] grids of
    0/1 cells for which [draw_grid] makes the same calls are the same
    grid. *)
Theorem draw_grid_injective (g1 g2 : Grid) :
  wf_grid SIZE g1 → wf_grid SIZE g2 → binary g1 → binary g2 →
  draw_grid SIZE g1 [] = draw_grid SIZE g2 [] → g1 = g2.
Proof.
  intros Hg1 Hg2 Hb1 Hb2 Hdraw.
  rewrite !draw_grid_eq in Hdraw by done. cbn [app] in Hdraw.
  injection Hdraw as Hcalls.
  apply grid_ext; [done..|]. intros p Hp.
  apply elem_of_scan, list_elem_of_lookup in Hp as [i Hi].
  assert (cell_call SIZE g1 p = cell_call SIZE g2 p) as Hcall.
  { assert ((cell_call SIZE g1 <$> scan SIZE) !! i
            = (cell_call SIZE g2 <$> scan SIZE) !! i) as Hlook
      by (by rewrite Hcalls).
    rewrite !list_lookup_fmap, Hi in Hlook. cbn in Hlook. congruence. }
  unfold cell_call in Hcall.
  destruct (binary_cell g1 p Hb1) as [E1|E1],
           (binary_cell g2 p Hb2) as [E2|E2];
    rewrite E1, E2 in *; try done; cbn in Hcall; discriminate.
Qed.

Lemma white_calls (g : Grid) (l : list Cell) :
  length (filter (λ call, is_white_rect call = true) (cell_call SIZE g <$> l))
  = length (filter (λ p, cell g p = SAND) l).
Proof.
  induction l as [|p l IH]; [done|].
  rewrite fmap_cons, !filter_cons.
  assert (is_white_rect (cell_call SIZE g p) = true ↔ cell g p = SAND) as Hw.
  { unfold cell_call. destruct (cell g p =? 1) eqn:Hc.
    - apply Z.eqb_eq in Hc. by cbn.
    - apply Z.eqb_neq in Hc. by cbn. }
  repeat case_decide; cbn [length]; rewrite ?IH; try done; tauto.
Qed.

(** X7: [draw_grid] draws exactly as many white rectangles as the grid has
    sand cells. *)
Theorem draw_grid_white_count (g : Grid) (screen : list DrawCall) :
  wf_grid SIZE g →
  ∃ calls, draw_grid SIZE g screen = Ok (screen ++ calls)
    ∧ length (filter (λ call, is_white_rect call = true) calls)
      = count_sand g.
Proof.
  intros Hg. eexists. split; [by apply draw_grid_eq|].
  by rewrite white_calls, count_sand_scan.
Qed.
End Pictures.

(** ** More on events *)

Lemma running_handle_event (SIZE : Z) (self : App) (event : Event) (busy : bool) :
  running (handle_event SIZE self event busy)
  = running self && negb (is_quit event).
Proof.
  destruct event as [|key|]; cbn [handle_event is_quit running].
  - by rewrite andb_false_r.
  - destruct ((key =? K_r) || (key =? K_c)); cbn; [by rewrite andb_true_r|].
    destruct (key =? K_q); cbn; [by rewrite andb_false_r|by rewrite andb_true_r].
  - by rewrite andb_true_r.
Qed.

Lemma running_handle_events (SIZE : Z) (self : App)
    (events : list (Event * bool)) :
  running (handle_events SIZE self events)
  = running self && negb (existsb (λ ev, is_quit ev.1) events).
Proof.
  unfold handle_events. revert self.
  induction events as [|[event busy] events IH]; intros self.
  - cbn. by rewrite andb_true_r.
  - cbn [foldl existsb fst snd]. rewrite IH, running_handle_event.
    rewrite negb_orb. by rewrite andb_assoc.
Qed.

(** X8: after a batch of events the program is still running exactly when
    it was running before and the batch holds neither a QUIT event nor a
    press of [q]; nothing switches [running] back on. *)
Theorem running_after_events (SIZE : Z) (self : App)
    (events : list (Event * bool)) :
  running (handle_events SIZE self events)
  = running self && negb (existsb (λ ev, is_quit ev.1) events).
Proof. apply running_handle_events. Qed.

(** X9: a batch of events changes the grid only through a press of [r]
    or [c]: with one in the batch the grid is the fresh one, without any
    the grid is the very grid it was; QUIT, [q] and other keys never touch
    it. *)
Theorem grid_after_events (SIZE : Z) (self : App)
    (events : list (Event * bool)) :
  grid (handle_events SIZE self events)
  = if existsb (λ ev, is_reset ev.1) events then generate_grid SIZE
    else grid self.
Proof. apply grid_handle_events. Qed.

Lemma clicks_app (l k : list AudioCall) :
  clicks (l ++ k) = (clicks l + clicks k)%nat.
Proof. unfold clicks. by rewrite fmap_app, sum_list_with_app. Qed.

Lemma stops_app (l k : list AudioCall) :
  stops (l ++ k) = (stops l + stops k)%nat.
Proof. unfold stops. by rewrite fmap_app, sum_list_with_app. Qed.

(** X10: the click is played once per press of [r] or [c] in the batch
    and at no other time, and the mixer is stopped once per such press
    that finds it busy. *)
Theorem audio_after_events (SIZE : Z) (self : App)
    (events : list (Event * bool)) :
  clicks (audio (handle_events SIZE self events))
  = (clicks (audio self)
     + length (filter (λ ev, is_reset ev.1 = true) events))%nat
  ∧ stops (audio (handle_events SIZE self events))
    = (stops (audio self)
       + length (filter (λ ev, is_reset ev.1 = true ∧ ev.2 = true) events))%nat.
Proof.
  unfold handle_events. revert self.
  induction events as [|[event busy] events IH]; intros self.
  - cbn. lia.
  - cbn [foldl fst snd]. destruct (IH (handle_event SIZE self event busy))
      as [Hc Hs].
    rewrite Hc, Hs, !filter_cons. cbn [fst snd].
    destruct event as [|key|]; cbn [handle_event is_reset audio].
    + rewrite !decide_False by (first [done|by intros [? _]]). lia.
    + destruct ((key =? K_r) || (key =? K_c)) eqn:Hkey.
      * cbn [audio]. rewrite !clicks_app, !stops_app.
        rewrite decide_True by done.
        destruct busy.
        -- rewrite decide_True by done. cbn. lia.
        -- rewrite decide_False by (intros [_ ?]; done). cbn. lia.
      * rewrite !decide_False by (first [done|by intros [? _]]).
        destruct (key =? K_q); cbn [audio]; lia.
    + rewrite !decide_False by (first [done|by intros [? _]]). lia.
Qed.

(** ** More on a tick *)

Section Ticks.
Variable SIZE : Z.
Variable RADIUS : Z.
Context {R : Type} `{Random R}.

Lemma written_in_grid (g : Grid) (mouse : Mouse) (r : R) (acc : list Cell) :
  let s := outcome SIZE RADIUS g mouse r acc in
  Forall (in_grid SIZE) (painted s ++ (moves s).*2).
Proof.
  cbv zeta. unfold outcome. cbn [painted moves].
  apply Forall_app. split; [apply paint_in_grid|].
  apply project_in_grid, in_grid_scan.
Qed.

(** X11: sand never rises and never jumps: whatever the grid, the paint
    input and the random choices, every particle either stays in its cell
    or enters a cell one row lower and at most one column to the side,
    which lies in the grid and is empty in the current grid. *)
Theorem sand_moves_one_step_down (g : Grid) (mouse : Mouse) (r : R) :
  wf_grid SIZE g → (get_pressed0 mouse = true → CELL_SIZE SIZE ≠ 0) →
  ∃ s, tick SIZE RADIUS g mouse r = Ok s
    ∧ ∀ src dst, (src, dst) ∈ moves s →
        dst = src
        ∨ (dst.1 = src.1 + 1 ∧ -1 ≤ dst.2 - src.2 ≤ 1
           ∧ in_grid SIZE dst ∧ cell g dst = EMPTY).
Proof.
  intros Hg Hcs.
  destruct (tick_ok SIZE RADIUS g mouse r Hg Hcs) as (acc & -> & _).
  eexists. split; [done|]. intros src dst Hin.
  unfold outcome in Hin. cbn [moves] in Hin.
  apply project_moves in Hin as (Hsrc & _ & dir & Hdir & ->).
  apply elem_of_scan in Hsrc.
  pose proof (destination_in_grid SIZE g src dir Hsrc) as Hdst.
  destruct (destination_cases SIZE g src dir) as [[-> _]|(H1 & H2 & _ & H4)];
    [by left|right].
  split_and!; try done; destruct Hdir as [-> | ->]; lia.
Qed.

(** X12: every particle is given a place: the particles moved are the
    sand cells of the current grid, each once and in scanning order, and
    the next grid holds sand at the destination of every one of them and
    at every painted cell.  Two particles may be given the same
    destination and then end as one sand cell, so the number of sand
    cells can drop. *)
Theorem every_particle_lands (g : Grid) (mouse : Mouse) (r : R) :
  wf_grid SIZE g → (get_pressed0 mouse = true → CELL_SIZE SIZE ≠ 0) →
  ∃ s, tick SIZE RADIUS g mouse r = Ok s
    ∧ (moves s).*1 = filter (λ p, cell g p = SAND) (scan SIZE)
    ∧ (∀ src, in_grid SIZE src → cell g src = SAND →
         ∃ dst, (src, dst) ∈ moves s)
    ∧ (∀ src dst, (src, dst) ∈ moves s → cell (next_grid s) dst = SAND)
    ∧ (∀ p, p ∈ painted s → cell (next_grid s) p = SAND).
Proof.
  intros Hg Hcs.
  destruct (tick_ok SIZE RADIUS g mouse r Hg Hcs) as (acc & -> & _).
  eexists. split; [done|].
  pose proof (written_in_grid g mouse r acc) as Hin. cbv zeta in Hin.
  rewrite Forall_forall in Hin.
  assert (∀ p, p ∈ painted (outcome SIZE RADIUS g mouse r acc)
                   ++ (moves (outcome SIZE RADIUS g mouse r acc)).*2 →
               cell (next_grid (outcome SIZE RADIUS g mouse r acc)) p = SAND)
    as Hsand.
  { intros p Hp. destruct (Hin p Hp) as [Hp1 Hp2]. unfold in_range in *.
    rewrite cell_outcome by lia. by rewrite decide_True. }
  split_and!.
  - unfold outcome. cbn [moves]. apply project_sources.
  - intros src Hsrc Hcell. unfold outcome. cbn [moves].
    destruct (project_complete SIZE g (scan SIZE)
                (paint SIZE RADIUS mouse r).2 src)
      as (dir & _ & Hmv); [by apply elem_of_scan|done|]. eauto.
  - intros src dst Hmv. apply Hsand, elem_of_app. right.
    apply list_elem_of_fmap. by exists (src, dst).
  - intros p Hp. apply Hsand, elem_of_app. by left.
Qed.

(** X13: the number of sand cells after a tick is the number of distinct
    cells written (painted cells and destinations); so without paint
    input, when no two particles share a destination, the tick keeps the
    number of sand cells. *)
Theorem sand_count_after_tick (g : Grid) (mouse : Mouse) (r : R) :
  wf_grid SIZE g → (get_pressed0 mouse = true → CELL_SIZE SIZE ≠ 0) →
  ∃ s, tick SIZE RADIUS g mouse r = Ok s
    ∧ count_sand (next_grid s)
      = length (remove_dups (painted s ++ (moves s).*2))
    ∧ (painted s = [] → NoDup (moves s).*2 →
       count_sand (next_grid s) = count_sand g).
Proof.
  intros Hg Hcs.
  destruct (tick_ok SIZE RADIUS g mouse r Hg Hcs) as (acc & -> & _).
  eexists. split; [done|].
  set (s := outcome SIZE RADIUS g mouse r acc).
  pose proof (written_in_grid g mouse r acc) as Hin. cbv zeta in Hin.
  fold s in Hin. rewrite Forall_forall in Hin.
  assert (count_sand (next_grid s)
          = length (remove_dups (painted s ++ (moves s).*2))) as Hcount.
  { rewrite <- (count_sand_scan SIZE) by apply wf_outcome.
    apply Permutation_length, NoDup_Permutation.
    - apply NoDup_filter, NoDup_scan.
    - apply NoDup_remove_dups.
    - intros p. rewrite list_elem_of_filter, elem_of_remove_dups, elem_of_scan.
      split.
      + intros [Hcell [Hp1 Hp2]]. unfold in_range in *.
        subst s. rewrite cell_outcome in Hcell by lia.
        by case_decide.
      + intros Hp. pose proof (Hin p Hp) as [Hp1 Hp2].
        split; [|done]. unfold in_range in *.
        subst s. rewrite cell_outcome by lia. by rewrite decide_True. }
  split; [done|]. intros Hpaint Hnodup.
  rewrite Hcount, Hpaint. cbn [app].
  rewrite <- (count_sand_scan SIZE g Hg).
  assert (remove_dups (moves s).*2 ≡ₚ (moves s).*2) as ->.
  { apply NoDup_Permutation; [apply NoDup_remove_dups|done|].
    intros p. apply elem_of_remove_dups. }
  rewrite length_fmap, <- (length_fmap fst). subst s.
  unfold outcome. cbn [moves]. by rewrite project_sources.
Qed.

(** X14: a settled pile is a fixed point: on a [SIZE] by [SIZE] grid of
    0/1 cells in which every sand cell has the cell below and both
    diagonal cells below occupied or outside the grid, a tick without
    paint input gives back the same grid, and so does any number of
    ticks, whatever the random choices. *)
Theorem settled_grid_is_fixed (g : Grid) :
  wf_grid SIZE g → binary g → settled SIZE g →
  (∀ r : R, ∃ s, tick SIZE RADIUS g no_paint r = Ok s ∧ next_grid s = g)
  ∧ (∀ (n : nat) (r : R), ∃ r', ticks SIZE RADIUS n g r = Ok (g, r')).
Proof.
  intros Hg Hbin Hsettled.
  assert (∀ r : R, ∃ s, tick SIZE RADIUS g no_paint r = Ok s ∧ next_grid s = g)
    as Hone.
  { intros r.
    destruct (tick_ok SIZE RADIUS g no_paint r Hg) as (acc & -> & _); [done|].
    eexists. split; [done|].
    apply (grid_ext SIZE); [apply wf_outcome|done|].
    intros p Hp. pose proof Hp as [Hp1 Hp2]. unfold in_range in *.
    rewrite cell_outcome by lia.
    unfold outcome. rewrite paint_no_paint. cbn [painted moves fst snd app].
    assert (∀ src dst, (src, dst) ∈ (project SIZE g (scan SIZE) r).1 →
                       dst = src ∧ cell g src = SAND) as Hrest.
    { intros src dst Hmv.
      apply project_moves in Hmv as (Hsrc & Hsand & dir & Hdir & ->).
      apply elem_of_scan in Hsrc.
      destruct (Hsettled src Hsrc Hsand) as (Hd & Hl & Hr).
      split; [|done]. apply destination_rest; [done..|].
      by destruct Hdir as [-> | ->]. }
    case_decide as Hw.
    - apply list_elem_of_fmap in Hw as ([src dst] & -> & Hmv).
      cbn [snd]. destruct (Hrest src dst Hmv) as [-> Hsand]. by rewrite Hsand.
    - destruct (binary_cell g p Hbin) as [E|E]; [done|]. exfalso. apply Hw.
      destruct (project_complete SIZE g (scan SIZE) r p)
        as (dir & _ & Hmv); [by apply elem_of_scan|done|].
      apply list_elem_of_fmap. eexists. split; [|exact Hmv].
      symmetry. by apply (Hrest p). }
  split; [done|].
  intros n. induction n as [|n IH]; intros r; [by exists r|].
  destruct (Hone r) as (s & Htick & Hnext).
  cbn [ticks]. rewrite Htick. cbn [mbind Result_bind]. rewrite Hnext.
  apply IH.
Qed.

(** X15: a grid without sand gives an empty grid: when no cell holds 1
    (other values may occur), a tick without paint input logs no move,
    draws no random number and yields the all-empty grid. *)
Theorem no_sand_gives_empty_grid (g : Grid) (r : R) :
  wf_grid SIZE g → (∀ p, in_grid SIZE p → cell g p ≠ SAND) →
  ∃ s, tick SIZE RADIUS g no_paint r = Ok s
    ∧ moves s = [] ∧ painted s = [] ∧ rng s = r
    ∧ next_grid s = generate_grid SIZE.
Proof.
  intros Hg Hnone.
  destruct (tick_ok SIZE RADIUS g no_paint r Hg) as (acc & -> & _); [done|].
  eexists. split; [done|].
  unfold outcome. rewrite paint_no_paint. cbn [fst snd].
  rewrite (project_none SIZE g (scan SIZE) r).
  - by cbn.
  - apply Forall_forall. intros p Hp. by apply Hnone, elem_of_scan.
Qed.
End Ticks.

(** ** More on the brush *)

Section Brush.
Variable SIZE : Z.
Variable RADIUS : Z.
Context {R : Type} `{Random R}.

Lemma length_sprinkle (cands : list Cell) (r : R) :
  (length (sprinkle SIZE cands r).1 ≤ length cands)%nat.
Proof.
  revert r. induction cands as [|p cands IH]; intros r; [done|].
  cbn [sprinkle]. specialize (IH (uniform_below r).2).
  destruct (sprinkle SIZE cands _) as [ps r']. cbn [fst] in *.
  destruct (_ && _); cbn [length]; lia.
Qed.

Lemma length_product {A B C} (f : A → B → C) (l1 : list A) (l2 : list B) :
  length (a ← l1; b ← l2; [f a b]) = (length l1 * length l2)%nat.
Proof.
  induction l1 as [|a l1 IH]; [done|].
  change (a ← a :: l1; b ← l2; [f a b])
    with ((b ← l2; [f a b]) ++ (a ← l1; b ← l2; [f a b])).
  rewrite length_app, IH.
  assert (length (b ← l2; [f a b]) = length l2) as ->.
  { clear. induction l2 as [|b l2 IH]; [done|]. cbn. by rewrite <- IH. }
  cbn [length]. lia.
Qed.

Lemma length_brush (mouse : Mouse) :
  length (brush SIZE RADIUS mouse)
  = (Z.to_nat (RADIUS `div` 2) * Z.to_nat (RADIUS `div` 2))%nat.
Proof.
  unfold brush, range. cbv zeta.
  by rewrite (length_product (λ row column, (_ + column, _ + row))), length_seqZ.
Qed.

Lemma elem_of_brush (mouse : Mouse) (p : Cell) :
  p ∈ brush SIZE RADIUS mouse ↔
  (get_pos mouse).2 `div` CELL_SIZE SIZE ≤ p.1
    < (get_pos mouse).2 `div` CELL_SIZE SIZE + RADIUS `div` 2
  ∧ (get_pos mouse).1 `div` CELL_SIZE SIZE ≤ p.2
    < (get_pos mouse).1 `div` CELL_SIZE SIZE + RADIUS `div` 2.
Proof.
  unfold brush, range. cbv zeta. rewrite list_elem_of_bind. split.
  - intros (row & Hp & Hrow). apply list_elem_of_bind in Hp as (col & Hp & Hcol).
    apply list_elem_of_singleton in Hp as ->.
    apply elem_of_seqZ in Hrow, Hcol. cbn [fst snd]. lia.
  - intros [Hp1 Hp2].
    exists (p.2 - (get_pos mouse).1 `div` CELL_SIZE SIZE). split.
    + apply list_elem_of_bind.
      exists (p.1 - (get_pos mouse).2 `div` CELL_SIZE SIZE). split.
      * apply list_elem_of_singleton. destruct p as [p1 p2]. cbn [fst snd].
        f_equal; lia.
      * apply elem_of_seqZ. lia.
    + apply elem_of_seqZ. lia.
Qed.
Lemma brush_head (mouse : Mouse) :
  2 ≤ RADIUS →
  ∃ rest, brush SIZE RADIUS mouse
          = ((get_pos mouse).2 `div` CELL_SIZE SIZE,
             (get_pos mouse).1 `div` CELL_SIZE SIZE) :: rest.
Proof.
  intros Hradius. unfold brush, range. cbv zeta.
  assert (0 < RADIUS `div` 2) as Hext by (apply Z.div_str_pos; lia).
  rewrite (seqZ_cons 0 (RADIUS `div` 2)) by done.
  cbn [mbind list_bind app]. rewrite !Z.add_0_r. eauto.
Qed.

(** X16: the brush is a square that starts at the pointer's cell:
    [handle_drag] paints at most ([RADIUS] // 2) squared cells, each at
    most [RADIUS] // 2 - 1 rows below and columns to the right of the
    pointer's cell and none above or to the left of it; with [RADIUS] at
    most 1 it paints nothing and draws no random number. *)
Theorem brush_is_bounded (mouse : Mouse) (s : Tick R) :
  CELL_SIZE SIZE ≠ 0 → wf_grid SIZE (next_grid s) →
  ∃ s' ps,
    handle_drag SIZE RADIUS mouse s = Ok ((), s')
    ∧ painted s' = painted s ++ ps
    ∧ (length ps ≤ Z.to_nat (RADIUS `div` 2) * Z.to_nat (RADIUS `div` 2))%nat
    ∧ (∀ p, p ∈ ps →
         (get_pos mouse).2 `div` CELL_SIZE SIZE ≤ p.1
           < (get_pos mouse).2 `div` CELL_SIZE SIZE + RADIUS `div` 2
         ∧ (get_pos mouse).1 `div` CELL_SIZE SIZE ≤ p.2
           < (get_pos mouse).1 `div` CELL_SIZE SIZE + RADIUS `div` 2)
    ∧ (RADIUS ≤ 1 →
       ps = [] ∧ next_grid s' = next_grid s ∧ rng s' = rng s).
Proof.
  intros Hcs Hn.
  destruct (handle_drag_ok SIZE RADIUS mouse s Hcs Hn) as (acc & -> & _).
  cbv zeta. eexists _, _. split; [done|].
  cbn [after painted next_grid rng]. split_and!.
  - done.
  - rewrite <- (length_brush mouse). apply length_sprinkle.
  - intros p Hp. apply sprinkle_painted in Hp as [Hp _].
    by apply elem_of_brush.
  - intros Hsmall.
    assert (brush SIZE RADIUS mouse = []) as ->; [|done].
    apply length_zero_iff_nil. rewrite length_brush.
    assert (RADIUS `div` 2 < 1) by (apply Z.div_lt_upper_bound; lia).
    lia.
Qed.

(** X17: the transposed subscript is the right one: with [RADIUS] at
    least 2, when the first thinning draw succeeds and the pointer's pixel
    (mx, my) falls on a cell of the grid, [handle_drag] paints the cell of
    row my // CELL_SIZE and column mx // CELL_SIZE. *)
Theorem brush_paints_under_pointer (mouse : Mouse) (s : Tick R) :
  CELL_SIZE SIZE ≠ 0 → wf_grid SIZE (next_grid s) → 2 ≤ RADIUS →
  (uniform_below (rng s)).1 = true →
  in_grid SIZE ((get_pos mouse).2 `div` CELL_SIZE SIZE,
                (get_pos mouse).1 `div` CELL_SIZE SIZE) →
  ∃ s', handle_drag SIZE RADIUS mouse s = Ok ((), s')
    ∧ ((get_pos mouse).2 `div` CELL_SIZE SIZE,
       (get_pos mouse).1 `div` CELL_SIZE SIZE) ∈ painted s'
    ∧ cell (next_grid s') ((get_pos mouse).2 `div` CELL_SIZE SIZE,
                           (get_pos mouse).1 `div` CELL_SIZE SIZE) = SAND.
Proof.
  intros Hcs Hn Hradius Hdraw Hp.
  destruct (handle_drag_ok SIZE RADIUS mouse s Hcs Hn) as (acc & -> & _).
  cbv zeta. eexists. split; [done|].
  set (p := ((get_pos mouse).2 `div` CELL_SIZE SIZE,
             (get_pos mouse).1 `div` CELL_SIZE SIZE)) in *.
  assert (p ∈ (sprinkle SIZE (brush SIZE RADIUS mouse) (rng s)).1) as Hin.
  { destruct (brush_head mouse Hradius) as [rest ->]. fold p.
    cbn [sprinkle]. destruct (sprinkle SIZE rest _) as [ps r']. cbn [fst].
    destruct Hp as [Hp1 Hp2].
    apply within_cols_spec in Hp1. apply within_rows_spec in Hp2.
    rewrite Hdraw, Hp1, Hp2. apply list_elem_of_here. }
  cbn [after painted next_grid]. split.
  - apply elem_of_app. by right.
  - destruct Hp as [Hp1 Hp2]. unfold in_range in *.
    rewrite (cell_foldl_put SIZE); [by rewrite decide_True|done| |lia..].
    apply Forall_forall. intros q Hq. by apply sprinkle_painted in Hq as [_ ?].
Qed.

(** X18: pixels and cells agree: for a grid of 1 to 800 cells a side the
    drawn grid fits in the window, and a pointer pixel inside the drawn
    grid is mapped by [handle_drag] to a cell of the grid whose drawn
    rectangle contains that pixel. *)
Theorem pointer_cell_contains_pixel (mx my : Z) :
  1 ≤ SIZE ≤ 800 →
  0 ≤ mx < SIZE * CELL_SIZE SIZE → 0 ≤ my < SIZE * CELL_SIZE SIZE →
  let p := (my `div` CELL_SIZE SIZE, mx `div` CELL_SIZE SIZE) in
  SIZE * CELL_SIZE SIZE ≤ WIDTH
  ∧ in_grid SIZE p
  ∧ covers (cell_rect SIZE p) mx my
  ∧ ∀ q, in_grid SIZE q → covers (cell_rect SIZE q) mx my → q = p.
Proof.
  intros Hsize Hmx Hmy p.
  assert (0 < CELL_SIZE SIZE) as Hcs.
  { unfold CELL_SIZE, WIDTH, HEIGHT. rewrite Z.min_id.
    assert (1 ≤ 800 `div` SIZE); [|lia].
    apply Z.div_le_lower_bound; lia. }
  assert (SIZE * CELL_SIZE SIZE ≤ WIDTH) as Hfit.
  { unfold CELL_SIZE, WIDTH, HEIGHT. rewrite Z.min_id.
    apply Z.mul_div_le. lia. }
  pose proof (Z.div_mod mx (CELL_SIZE SIZE)) as Hdx.
  pose proof (Z.mod_pos_bound mx (CELL_SIZE SIZE) Hcs) as Hbx.
  pose proof (Z.div_mod my (CELL_SIZE SIZE)) as Hdy.
  pose proof (Z.mod_pos_bound my (CELL_SIZE SIZE) Hcs) as Hby.
  assert (0 ≤ mx `div` CELL_SIZE SIZE) by (apply Z.div_pos; lia).
  assert (0 ≤ my `div` CELL_SIZE SIZE) by (apply Z.div_pos; lia).
  assert (mx `div` CELL_SIZE SIZE < SIZE)
    by (apply Z.div_lt_upper_bound; lia).
  assert (my `div` CELL_SIZE SIZE < SIZE)
    by (apply Z.div_lt_upper_bound; lia).
  split; [done|]. split; [split; unfold in_range; cbn; lia|].
  split; [unfold covers, cell_rect; subst p; cbn [fst snd]; lia|].
  intros [q1 q2] _ Hq. unfold covers, cell_rect in Hq. cbn [fst snd] in Hq.
  subst p. f_equal.
  - apply (Z.div_unique_pos my (CELL_SIZE SIZE) q1
                       (my - q1 * CELL_SIZE SIZE)); lia.
  - apply (Z.div_unique_pos mx (CELL_SIZE SIZE) q2
                       (mx - q2 * CELL_SIZE SIZE)); lia.
Qed.
End Brush.

(** ** Frames of the main loop *)

Section Frames.
Variable SIZE : Z.
Variable RADIUS : Z.
Context {T R : Type} `{TimeArith T} `{Random R}.

(** X19: a frame ends the program exactly when [running] is off after the
    events are handled, that is when the batch holds a QUIT event or a
    press of [q] (or the program was not running); it then leaves through
    [shutdown] with the state the events left, before any tick is run or
    anything is drawn, however much time has passed. *)
Theorem frame_exits_on_quit (fuel : nat) (delta : T) (self : App) (r : R)
    (last : T) (screen : list DrawCall) (input : FrameInput T) :
  let keep := running self
              && negb (existsb (λ ev, is_quit ev.1) (events input)) in
  (keep = false →
   frame SIZE RADIUS fuel delta self r last screen input
   = Exited (handle_events SIZE self (events input)))
  ∧ (keep = true →
     ∀ a, frame SIZE RADIUS fuel delta self r last screen input ≠ Exited a).
Proof.
  cbv zeta. unfold frame. rewrite running_handle_events. split.
  - by intros ->.
  - intros -> a. cbn [negb].
    destruct (tick_loop _ _ _ _ _ _ _ _ _ _) as [last' g' r' k|e|]; try done.
    by destruct (draw SIZE g' screen).
Qed.

Lemma draw_eq (g : Grid) (screen : list DrawCall) :
  wf_grid SIZE g →
  draw SIZE g screen
  = Ok (screen ++ [Fill Color.BLACK] ++ (cell_call SIZE g <$> scan SIZE)
        ++ [Flip]).
Proof.
  intros Hg. unfold draw. rewrite draw_grid_eq by done.
  cbn [mbind Result_bind]. by rewrite <- !app_assoc.
Qed.

Lemma wf_grid_handle_events (self : App) (events : list (Event * bool)) :
  wf_grid SIZE (grid self) →
  wf_grid SIZE (grid (handle_events SIZE self events)).
Proof.
  intros Hg. rewrite grid_handle_events.
  destruct (existsb _ events); [apply wf_generate_grid|done].
Qed.

(** X20: an idle frame draws what the events left: when the program keeps
    running and less than one tick of time has accumulated, the frame runs
    no tick, keeps the generator and the time of the last update, and
    draws the grid as the events left it: a black fill, one rectangle per
    cell, and a flip. *)
Theorem idle_frame_draws_grid (fuel : nat) (delta : T) (self : App) (r : R)
    (last : T) (screen : list DrawCall) (input : FrameInput T) :
  wf_grid SIZE (grid self) →
  running self = true →
  existsb (λ ev, is_quit ev.1) (events input) = false →
  time_ge (time_sub (current_time input) last) delta = false →
  let self' := handle_events SIZE self (events input) in
  frame SIZE RADIUS fuel delta self r last screen input
  = Drawn self' r last 0
      (screen ++ [Fill Color.BLACK]
       ++ (cell_call SIZE (grid self') <$> scan SIZE) ++ [Flip]).
Proof.
  intros Hg Hrun Hquit Htime. cbv zeta. unfold frame.
  rewrite running_handle_events, Hrun, Hquit. cbn [negb andb].
  assert (tick_loop SIZE RADIUS fuel delta (mouse_at input)
            (time_sub (current_time input) last) last
            (grid (handle_events SIZE self (events input))) r 0
          = LoopDone last (grid (handle_events SIZE self (events input))) r 0)
    as ->.
  { destruct fuel; cbn [tick_loop]; by rewrite Htime. }
  rewrite draw_eq by by apply wf_grid_handle_events.
  f_equal. destruct (handle_events SIZE self (events input)) eqn:Hself.
  cbn [grid audio]. f_equal.
  pose proof (running_handle_events SIZE self (events input)) as Hr.
  rewrite Hself, Hrun, Hquit in Hr. by cbn in Hr.
Qed.
End Frames.

Section ExactFrames.
Variable SIZE : Z.
Variable RADIUS : Z.
Context {R : Type} `{Random R}.



End ExactFrames.

(** ** Worked examples *)

Lemma draw_grid_draws_every_cell_witness :
  wf_grid 3 stacked_grid
  ∧ ∃ calls, draw_grid 3 stacked_grid [Fill Color.BLACK]
             = Ok ([Fill Color.BLACK] ++ calls)
      ∧ length calls = 9%nat.
Proof.
  assert (wf_grid 3 stacked_grid) as Hwf.
  { split; [reflexivity|repeat constructor]. }
  split; [exact Hwf|].
  destruct (draw_grid_draws_every_cell 3 stacked_grid [Fill Color.BLACK] Hwf)
    as (calls & Hdraw & _ & Hlen & _).
  exists calls. split; [exact Hdraw|exact Hlen].
Defined.

Lemma draw_grid_rectangles_disjoint_witness :
  wf_grid 2 packed_grid
  ∧ draw_grid 2 packed_grid []
    = Ok [Rect Color.BLACK (0, 0, 400, 400);
          Rect Color.BLACK (400, 0, 400, 400);
          Rect Color.WHITE (0, 400, 400, 400);
          Rect Color.WHITE (400, 400, 400, 400)]
  ∧ ¬ overlap (400, 0, 400, 400) (400, 400, 400, 400).
Proof.
  assert (wf_grid 2 packed_grid) as Hwf.
  { split; [reflexivity|repeat constructor]. }
  split_and!; [exact Hwf|reflexivity|].
  apply (draw_grid_rectangles_disjoint 2 packed_grid _ 1 3
           Color.BLACK Color.WHITE _ _ Hwf eq_refl);
    [lia|reflexivity|reflexivity].
Defined.

Lemma draw_grid_injective_witness :
  wf_grid 2 packed_grid ∧ binary packed_grid
  ∧ draw_grid 2 packed_grid [] = draw_grid 2 [[0; 0]; [1; 1]] []
  ∧ packed_grid = [[0; 0]; [1; 1]].
Proof.
  assert (wf_grid 2 packed_grid) as Hwf.
  { split; [reflexivity|repeat constructor]. }
  assert (binary packed_grid) as Hbin.
  { unfold binary, packed_grid.
    repeat first [apply Forall_nil_2|apply Forall_cons_2|by left|by right]. }
  split_and!; [exact Hwf|exact Hbin|reflexivity|].
  exact (draw_grid_injective 2 packed_grid [[0; 0]; [1; 1]]
           Hwf Hwf Hbin Hbin eq_refl).
Defined.

Lemma draw_grid_white_count_witness :
  wf_grid 3 stacked_grid
  ∧ ∃ calls, draw_grid 3 stacked_grid [] = Ok ([] ++ calls)
      ∧ length (filter (λ call, is_white_rect call = true) calls)
        = count_sand stacked_grid.
Proof.
  assert (wf_grid 3 stacked_grid) as Hwf.
  { split; [reflexivity|repeat constructor]. }
  split; [exact Hwf|].
  exact (draw_grid_white_count 3 stacked_grid [] Hwf).
Defined.

Lemma sand_moves_one_step_down_witness :
  wf_grid 3 stacked_grid ∧ CELL_SIZE 3 ≠ 0
  ∧ ∃ s, tick 3 5 stacked_grid corner_mouse east_tape = Ok s
      ∧ ∀ src dst, (src, dst) ∈ moves s →
          dst = src
          ∨ (dst.1 = src.1 + 1 ∧ -1 ≤ dst.2 - src.2 ≤ 1
             ∧ in_grid 3 dst ∧ cell stacked_grid dst = EMPTY).
Proof.
  assert (wf_grid 3 stacked_grid) as Hwf.
  { split; [reflexivity|repeat constructor]. }
  assert (CELL_SIZE 3 ≠ 0) as Hcs by (vm_compute; discriminate).
  split_and!; [exact Hwf|exact Hcs|].
  exact (sand_moves_one_step_down 3 5 stacked_grid corner_mouse east_tape
           Hwf (λ _, Hcs)).
Defined.

Lemma every_particle_lands_witness :
  wf_grid 2 crowded_grid
  ∧ ∃ s, tick 2 5 crowded_grid no_paint east_tape = Ok s
      ∧ (moves s).*1 = [(0, 0); (0, 1); (1, 0)]
      ∧ (∀ src, in_grid 2 src → cell crowded_grid src = SAND →
           ∃ dst, (src, dst) ∈ moves s)
      ∧ (∀ src dst, (src, dst) ∈ moves s → cell (next_grid s) dst = SAND).
Proof.
  assert (wf_grid 2 crowded_grid) as Hwf.
  { split; [reflexivity|repeat constructor]. }
  split; [exact Hwf|].
  assert (get_pressed0 no_paint = true → CELL_SIZE 2 ≠ 0) as Hidle.
  { discriminate. }
  destruct (every_particle_lands 2 5 crowded_grid no_paint east_tape
              Hwf Hidle) as (s & Htick & Hsources & Hsrc & Hdst & _).
  exists s. split_and!; [exact Htick| |exact Hsrc|exact Hdst].
  rewrite Hsources. reflexivity.
Defined.

Lemma sand_count_after_tick_witness :
  wf_grid 3 stacked_grid
  ∧ ∃ s, tick 3 5 stacked_grid no_paint east_tape = Ok s
      ∧ count_sand (next_grid s)
        = length (remove_dups (painted s ++ (moves s).*2)).
Proof.
  assert (wf_grid 3 stacked_grid) as Hwf.
  { split; [reflexivity|repeat constructor]. }
  split; [exact Hwf|].
  assert (get_pressed0 no_paint = true → CELL_SIZE 3 ≠ 0) as Hidle.
  { discriminate. }
  destruct (sand_count_after_tick 3 5 stacked_grid no_paint east_tape
              Hwf Hidle) as (s & Htick & Hcount & _).
  exists s. split; [exact Htick|exact Hcount].
Defined.

Lemma settled_grid_is_fixed_witness :
  wf_grid 2 packed_grid ∧ binary packed_grid ∧ settled 2 packed_grid
  ∧ ∃ r', ticks 2 5 7 packed_grid east_tape = Ok (packed_grid, r').
Proof.
  assert (wf_grid 2 packed_grid) as Hwf.
  { split; [reflexivity|repeat constructor]. }
  assert (binary packed_grid) as Hbin.
  { unfold binary, packed_grid.
    repeat first [apply Forall_nil_2|apply Forall_cons_2|by left|by right]. }
  assert (settled 2 packed_grid) as Hset.
  { intros [i j] [Hi Hj] Hsand. unfold in_range in *. simpl in *.
    assert (i = 0 ∨ i = 1) as [-> | ->] by lia;
      assert (j = 0 ∨ j = 1) as [-> | ->] by lia;
      try (vm_compute in Hsand; discriminate);
      split_and!; left; unfold in_grid, in_range; simpl; lia. }
  split_and!; [exact Hwf|exact Hbin|exact Hset|].
  exact (proj2 (settled_grid_is_fixed 2 5 packed_grid Hwf Hbin Hset)
           7%nat east_tape).
Defined.

Lemma no_sand_gives_empty_grid_witness :
  wf_grid 2 [[0; 0]; [0; 0]]
  ∧ (∀ p, in_grid 2 p → cell [[0; 0]; [0; 0]] p ≠ SAND)
  ∧ ∃ s, tick 2 5 [[0; 0]; [0; 0]] no_paint west_tape = Ok s
      ∧ moves s = [] ∧ rng s = west_tape.
Proof.
  assert (wf_grid 2 [[0; 0]; [0; 0]]) as Hwf.
  { split; [reflexivity|repeat constructor]. }
  assert (∀ p, in_grid 2 p → cell [[0; 0]; [0; 0]] p ≠ SAND) as Hempty.
  { intros [i j] [Hi Hj]. unfold in_range in *. simpl in *.
    assert (i = 0 ∨ i = 1) as [-> | ->] by lia;
      assert (j = 0 ∨ j = 1) as [-> | ->] by lia;
      vm_compute; discriminate. }
  split_and!; [exact Hwf|exact Hempty|].
  destruct (no_sand_gives_empty_grid 2 5 [[0; 0]; [0; 0]] west_tape
              Hwf Hempty) as (s & Htick & Hmoves & _ & Hrng & _).
  exists s. split_and!; [exact Htick|exact Hmoves|exact Hrng].
Defined.

Lemma brush_is_bounded_witness :
  CELL_SIZE 3 ≠ 0 ∧ wf_grid 3 (next_grid fresh_tick)
  ∧ ∃ s' ps, handle_drag 3 5 corner_mouse fresh_tick = Ok ((), s')
      ∧ painted s' = painted fresh_tick ++ ps
      ∧ (length ps ≤ 4)%nat.
Proof.
  assert (CELL_SIZE 3 ≠ 0) as Hcs by (vm_compute; discriminate).
  assert (wf_grid 3 (next_grid fresh_tick)) as Hwf.
  { split; [reflexivity|repeat constructor]. }
  split_and!; [exact Hcs|exact Hwf|].
  destruct (brush_is_bounded 3 5 corner_mouse fresh_tick Hcs Hwf)
    as (s' & ps & Hrun & Hpainted & Hlen & _).
  exists s', ps. split_and!; [exact Hrun|exact Hpainted|exact Hlen].
Defined.

Lemma brush_paints_under_pointer_witness :
  CELL_SIZE 3 ≠ 0 ∧ wf_grid 3 (next_grid fresh_tick) ∧ in_grid 3 (1, 2)
  ∧ ∃ s', handle_drag 3 5 corner_mouse fresh_tick = Ok ((), s')
      ∧ (1, 2) ∈ painted s' ∧ cell (next_grid s') (1, 2) = SAND.
Proof.
  assert (CELL_SIZE 3 ≠ 0) as Hcs by (vm_compute; discriminate).
  assert (wf_grid 3 (next_grid fresh_tick)) as Hwf.
  { split; [reflexivity|repeat constructor]. }
  assert (in_grid 3 (1, 2)) as Hp.
  { unfold in_grid, in_range. simpl. lia. }
  split_and!; [exact Hcs|exact Hwf|exact Hp|].
  exact (brush_paints_under_pointer 3 5 corner_mouse fresh_tick Hcs Hwf
           ltac:(lia) eq_refl Hp).
Defined.

Lemma pointer_cell_contains_pixel_witness :
  in_grid 3 (1, 2) ∧ covers (cell_rect 3 (1, 2)) 700 300
  ∧ ∀ q, in_grid 3 q → covers (cell_rect 3 q) 700 300 → q = (1, 2).
Proof.
  destruct (pointer_cell_contains_pixel 3 700 300) as (_ & Hin & Hcov & Huniq).
  - lia.
  - vm_compute. split; [discriminate|reflexivity].
  - vm_compute. split; [discriminate|reflexivity].
  - split_and!; [exact Hin|exact Hcov|exact Huniq].
Defined.

Lemma idle_frame_draws_grid_witness :
  wf_grid 3 stacked_grid
  ∧ frame 3 5 1 float_delta_time
      {| grid := stacked_grid; running := true; audio := [] |}
      east_tape 100%float []
      {| events := [(OtherEvent, false)]; current_time := 100.015625%float;
         mouse_at := λ _, corner_mouse |}
    = Drawn {| grid := stacked_grid; running := true; audio := [] |}
        east_tape 100%float 0
        ([] ++ [Fill Color.BLACK]
         ++ (cell_call 3 stacked_grid <$> scan 3) ++ [Flip]).
Proof.
  assert (wf_grid 3 stacked_grid) as Hwf.
  { split; [reflexivity|repeat constructor]. }
  split; [exact Hwf|].
  exact (idle_frame_draws_grid 3 5 1
           float_delta_time
           {| grid := stacked_grid; running := true; audio := [] |}
           east_tape 100%float []
           {| events := [(OtherEvent, false)]; current_time := 100.015625%float;
              mouse_at := λ _, corner_mouse |}
           Hwf eq_refl eq_refl eq_refl).
Defined.

